(** * Playground.tsx: the live layout playground

    A shallow embedding of [website-next/src/components/Playground.tsx]:
    the [Layout] wrapper and the flattener [styleNodeFromYogaNode] as
    functions over React nodes, the flattener once more over a store of
    JavaScript objects, and the [Playground] component as a machine that
    takes renders and events.

    React values are modelled after the [React.ReactNode] type; the
    [React.Children] helpers follow React's documented traversal
    (nested arrays are walked in order; [null], [undefined] and booleans
    reach the callback as [null]; [only] throws unless it is given one
    element). *)

From Stdlib Require Import ZArith.
From stdpp Require Import base option list strings pretty.

#[local] Set Warnings "-register-all".

Open Scope Z_scope.
Open Scope list_scope.

(** ** Results of JavaScript computations *)

(** A JavaScript call either returns a value or throws. *)
Inductive Res (A : Type) : Type :=
  | Ret (a : A)
  | Throw (msg : string).
Arguments Ret {A} a.
Arguments Throw {A} msg.

Global Instance Res_bind : MBind Res := fun A B k m =>
  match m with
  | Ret a => k a
  | Throw msg => Throw msg
  end.

Global Instance Res_fmap : FMap Res := fun A B f m =>
  match m with
  | Ret a => Ret (f a)
  | Throw msg => Throw msg
  end.

(** ** Style attributes *)

Inductive StyleValue : Type :=
  | SNum (n : Z)
  | SKeyword (k : string).

(** Modelled from the spec: the [FlexStyle] type is imported from
    [./FlexStyle]; the spec describes it as an opaque mapping from
    layout-property names to numeric or keyword values.  The object
    literal's own key order is kept. *)
Definition FlexStyle : Type := list (string * StyleValue).

(** ** React nodes *)

(** The [type] field of a React element.  [Node] and [Layout] are the two
    symbols of this file; the rest stand for every other element type. *)
Inductive ElementType : Type :=
  | NodeT
  | LayoutT
  | FragmentT
  | HostT (tag : string)
  | ComponentT (name : string).

Global Instance ElementType_eq_dec : EqDecision ElementType.
Proof. solve_decision. Defined.

(** [React.ReactNode]: what a [children] prop may hold.  An element
    carries its [type] and the two props this file reads,
    [props.style] and [props.children]. *)
Inductive ReactNode : Type :=
  | RNull
  | RUndefined
  | RBool (b : bool)
  | RString (s : string)
  | RNumber (n : Z)
  | RPortal
  | RArray (items : list ReactNode)
  | RElem (e : ReactElement)
with ReactElement : Type :=
  | Element (type : ElementType) (style : FlexStyle) (children : ReactNode).

Definition type (e : ReactElement) : ElementType :=
  match e with Element t _ _ => t end.
Definition props_style (e : ReactElement) : FlexStyle :=
  match e with Element _ s _ => s end.
Definition props_children (e : ReactElement) : ReactNode :=
  match e with Element _ _ c => c end.

(** ** The [React.Children] helpers *)

(** React's [mapIntoArray] with a callback that threads a state: arrays
    are walked in order, empty values reach the callback as [null]. *)
Section MapIntoArray.
Context {S : Type} (callback : ReactNode -> S -> S).

Fixpoint mapIntoArray (children : ReactNode) (acc : S) : S :=
  match children with
  | RNull | RUndefined | RBool _ => callback RNull acc
  | RArray items =>
      (fix each (l : list ReactNode) (acc : S) : S :=
         match l with
         | [] => acc
         | c :: l' => each l' (mapIntoArray c acc)
         end) items acc
  | _ => callback children acc
  end.
End MapIntoArray.

(** [React.Children.forEach]: a top-level [null] or [undefined] calls
    nothing. *)
Definition Children_forEach {S : Type} (children : ReactNode)
    (callback : ReactNode -> S -> S) (acc : S) : S :=
  match children with
  | RNull | RUndefined => acc
  | _ => mapIntoArray callback children acc
  end.

(** [React.Children.count]. *)
Definition Children_count (children : ReactNode) : nat :=
  Children_forEach children (fun _ n => S n) 0%nat.

(** [React.isValidElement]. *)
Definition isValidElement (child : ReactNode) : bool :=
  match child with
  | RElem _ => true
  | _ => false
  end.

(** [React.Children.only]: throws unless [children] is one element. *)
Definition Children_only (children : ReactNode) : Res ReactNode :=
  match children with
  | RElem _ => Ret children
  | _ => Throw "React.Children.only expected to receive a single React element child."
  end.

(** ** The flattened tree *)

Inductive StyleNode : Type :=
  | mkStyleNode (style : FlexStyle) (children : list StyleNode).

Definition sn_style (n : StyleNode) : FlexStyle :=
  match n with mkStyleNode s _ => s end.
Definition sn_children (n : StyleNode) : list StyleNode :=
  match n with mkStyleNode _ c => c end.

(** [styleNodeFromYogaNode]: the local [children] array is the state
    threaded through the [forEach] callback, [push] appends. *)
Fixpoint styleNodeFromYogaNode (yogaNode : ReactElement) : StyleNode :=
  match yogaNode with
  | Element _ style kids =>
      let children : list StyleNode :=
        Children_forEach kids
          (fun child children =>
             match child with
             | RElem c =>
                 (* React.isValidElement(child), then child.type === Node *)
                 if decide (type c = NodeT)
                 then children ++ [styleNodeFromYogaNode c]
                 else children
             | _ => children
             end) [] in
      mkStyleNode style children
  end.

(** The callback of [styleNodeFromYogaNode], as a function of the
    children array built so far. *)
Definition pushNode (child : ReactNode) (children : list StyleNode)
  : list StyleNode :=
  match child with
  | RElem c =>
      if decide (type c = NodeT)
      then children ++ [styleNodeFromYogaNode c]
      else children
  | _ => children
  end.

(** ** Induction over the two trees *)

Section ReactNode_induction.
Variables (P : ReactNode -> Prop) (Q : ReactElement -> Prop).
Hypothesis HNull : P RNull.
Hypothesis HUndefined : P RUndefined.
Hypothesis HBool : forall b, P (RBool b).
Hypothesis HString : forall s, P (RString s).
Hypothesis HNumber : forall n, P (RNumber n).
Hypothesis HPortal : P RPortal.
Hypothesis HArray : forall items, Forall P items -> P (RArray items).
Hypothesis HElem : forall e, Q e -> P (RElem e).
Hypothesis HElement : forall t s c, P c -> Q (Element t s c).

Fixpoint ReactNode_ind' (n : ReactNode) : P n :=
  match n with
  | RNull => HNull
  | RUndefined => HUndefined
  | RBool b => HBool b
  | RString s => HString s
  | RNumber k => HNumber k
  | RPortal => HPortal
  | RArray items =>
      HArray items
        ((fix all (l : list ReactNode) : Forall P l :=
            match l with
            | [] => @List.Forall_nil _ P
            | c :: l' => @List.Forall_cons _ P c l' (ReactNode_ind' c) (all l')
            end) items)
  | RElem e => HElem e (ReactElement_ind' e)
  end
with ReactElement_ind' (e : ReactElement) : Q e :=
  match e with
  | Element t s c => HElement t s c (ReactNode_ind' c)
  end.
End ReactNode_induction.

Section StyleNode_induction.
Variable P : StyleNode -> Prop.
Hypothesis Hnode : forall s kids, Forall P kids -> P (mkStyleNode s kids).

Fixpoint StyleNode_ind' (n : StyleNode) : P n :=
  match n with
  | mkStyleNode s kids =>
      Hnode s kids
        ((fix all (l : list StyleNode) : Forall P l :=
            match l with
            | [] => @List.Forall_nil _ P
            | c :: l' => @List.Forall_cons _ P c l' (StyleNode_ind' c) (all l')
            end) kids)
  end.
End StyleNode_induction.

(** ** The Layout wrapper *)

(** [config?: {useWebDefaults?: boolean}] *)
Record LayoutConfig : Type := { useWebDefaults : option bool }.

(** What a render of [Layout] returns: [null], or the
    [<Suspense fallback={null}>] boundary around one [<LazyYogaViewer>]
    element with its two props. *)
Inductive Output : Type :=
  | ONull
  | OSuspense (fallback : Output) (child : Output)
  | OLazyYogaViewer (rootNode : StyleNode) (useWebDefaults : option bool).

(** The [LazyYogaViewer] elements of a render output, with their props:
    the calls made to the layout-visualization collaborator. *)
Fixpoint viewerCalls (o : Output) : list (StyleNode * option bool) :=
  match o with
  | ONull => []
  | OSuspense _ child => viewerCalls child
  | OLazyYogaViewer rootNode flag => [(rootNode, flag)]
  end.

(** [config?.useWebDefaults] *)
Definition config_useWebDefaults (config : option LayoutConfig) : option bool :=
  match config with
  | Some c => useWebDefaults c
  | None => None
  end.

Definition Layout (children : ReactNode) (config : option LayoutConfig)
  : Res Output :=
  if negb (Children_count children =? 1)%nat then Ret ONull
  else
    child ← Children_only children;
    match child with
    | RElem node =>
        (* React.isValidElement(child) holds; is child.type Node? *)
        if decide (type node = NodeT) then
          let styleNode := styleNodeFromYogaNode node in
          Ret (OSuspense ONull
                 (OLazyYogaViewer styleNode (config_useWebDefaults config)))
        else Ret ONull
    | _ =>
        (* !React.isValidElement(child) *)
        Ret ONull
    end.

(** ** The words of the specification, for the flattener *)

(** The children sequence a [children] prop stands for: nothing for a
    missing prop, the items of (nested) arrays in order, and the value
    itself otherwise. *)
Fixpoint leaves (n : ReactNode) : list ReactNode :=
  match n with
  | RArray items => flat_map leaves items
  | _ => [n]
  end.

Definition childSequence (children : ReactNode) : list ReactNode :=
  match children with
  | RNull | RUndefined => []
  | _ => leaves children
  end.

(** A child is recognized when it is an element whose type is [Node]. *)
Definition recognized (child : ReactNode) : option ReactElement :=
  match child with
  | RElem c => if decide (type c = NodeT) then Some c else None
  | _ => None
  end.

Definition isRecognized (child : ReactNode) : bool :=
  match recognized child with Some _ => true | None => false end.

Definition recognizedChildren (yogaNode : ReactElement) : list ReactElement :=
  omap recognized (childSequence (props_children yogaNode)).


(** * The Playground component *)

(** ** The document tree the component reads back *)

(** A DOM node: a text node, or an element with its class list, its
    [clientHeight] and its child nodes. *)
Inductive DomNode : Type :=
  | DText (data : string)
  | DElement (classList : list string) (clientHeight : Z)
      (childNodes : list DomNode).

(** The first element with class [cls] among a node and its descendants,
    in document order. *)
Fixpoint firstMatch (cls : string) (n : DomNode) : option DomNode :=
  match n with
  | DText _ => None
  | DElement classes _ kids =>
      if bool_decide (cls ∈ classes) then Some n
      else
        (fix first (l : list DomNode) : option DomNode :=
           match l with
           | [] => None
           | k :: l' =>
               match firstMatch cls k with
               | Some hit => Some hit
               | None => first l'
               end
           end) kids
  end.

(** [root.querySelector('.cls')], a class selector: the first matching
    descendant of [root]; [root] itself is not a candidate. *)
Definition querySelectorClass (cls : string) (root : DomNode) : option DomNode :=
  match root with
  | DText _ => None
  | DElement _ _ kids =>
      (fix first (l : list DomNode) : option DomNode :=
         match l with
         | [] => None
         | k :: l' =>
             match firstMatch cls k with
             | Some hit => Some hit
             | None => first l'
             end
         end) kids
  end.

(** [node.textContent]: the text of all descendants, in document order.
    It is never [null] for a text node or an element. *)
Fixpoint textContent (n : DomNode) : string :=
  match n with
  | DText data => data
  | DElement _ _ kids =>
      (fix cat (l : list DomNode) : string :=
         match l with
         | [] => ""
         | k :: l' => textContent k +:+ cat l'
         end) kids
  end.

Definition dom_clientHeight (n : DomNode) : Z :=
  match n with
  | DText _ => 0
  | DElement _ h _ => h
  end.

(** The measured widths of the scroll container. *)
Record Box : Type := { offsetWidth : Z; clientWidth : Z }.

(** What the browser shows the component's effects when a render is
    committed: the two refs and whether [window.getSelection()] yields a
    selection. *)
Record Env : Type := {
  playgroundRef_current : option DomNode;
  editorScrollRef_current : option Box;
  window_getSelection : bool
}.

(** [nullthrows] from the package of that name. *)
Definition nullthrows {A : Type} (x : option A) : Res A :=
  match x with
  | Some a => Ret a
  | None => Throw "Got unexpected null or undefined"
  end.

(** [playgroundRef.current?.querySelector('.prism-code')] *)
Definition codeRegion (env : Env) : option DomNode :=
  root ← playgroundRef_current env; querySelectorClass "prism-code" root.

(** The [getCode] callback handed to the toolbar. *)
Definition getCode (env : Env) : Res string :=
  nullthrows (textContent <$> codeRegion env).

(** ** The default snippet *)

Definition LF : string := String (Ascii.ascii_of_nat 10) EmptyString.

Definition isWhiteSpace (c : Ascii.ascii) : bool :=
  let n := Ascii.nat_of_ascii c in
  ((9 <=? n) && (n <=? 13) || (n =? 32))%nat.

Fixpoint dropWhiteSpace (l : list Ascii.ascii) : list Ascii.ascii :=
  match l with
  | c :: l' => if isWhiteSpace c then dropWhiteSpace l' else l
  | [] => []
  end.

(** [String.prototype.trim], on the ASCII white space. *)
Definition trim (s : string) : string :=
  String.string_of_list_ascii
    (rev (dropWhiteSpace
            (rev (dropWhiteSpace (String.list_ascii_of_string s))))).

Definition defaultCode : string :=
  trim (LF +:+
    "<Layout config={{useWebDefaults: false}}>" +:+ LF +:+
    "  <Node style={{width: 350, height: 350, padding: 20}}>" +:+ LF +:+
    "    <Node style={{flex: 1}} />" +:+ LF +:+
    "  </Node>" +:+ LF +:+
    "</Layout>" +:+ LF).

(** The element tree the default snippet passes to [Layout]. *)
Definition defaultInner : ReactElement :=
  Element NodeT [("flex", SNum 1)] RUndefined.

Definition defaultRoot : ReactElement :=
  Element NodeT
    [("width", SNum 350); ("height", SNum 350); ("padding", SNum 20)]
    (RElem defaultInner).

(** ** Props, hook state and what a render shows *)

Inductive CssHeight : Type :=
  | HNum (n : Z)
  | HStr (s : string).

Record Props : Type := {
  code : option string;
  height : option CssHeight;
  autoFocus : option bool
}.

(** The state cells of the three [useState] hooks, and the dependency
    array the [useEffect] hook remembers from its last run ([None]
    before the first commit). *)
Record Hooks : Type := {
  isLoaded : bool;
  liveCode : string;
  scrollbarWidth : Z;
  effectDeps : option (bool * option bool)
}.

Record View : Type := {
  provider_code : string;
  toolbar_paddingRight : string;
  wrapper_height : option CssHeight
}.

Definition truthyHeight (h : option CssHeight) : bool :=
  match h with
  | Some (HNum n) => negb (n =? 0)
  | Some (HStr s) => negb (String.eqb s "")
  | None => false
  end.

Definition truthyFlag (b : option bool) : bool :=
  match b with
  | Some true => true
  | _ => false
  end.

(** The JSX the function body returns, as far as it depends on state. *)
Definition render (p : Props) (h : Hooks) : View :=
  {| provider_code := liveCode h;
     toolbar_paddingRight := pretty (scrollbarWidth h) +:+ "px";
     wrapper_height := if truthyHeight (height p) then height p else None |}.

(** The first values of the state cells: [useState(code ?? defaultCode)]. *)
Definition initialHooks (p : Props) : Hooks :=
  {| isLoaded := false;
     liveCode := default defaultCode (code p);
     scrollbarWidth := 0;
     effectDeps := None |}.

Definition setIsLoaded (b : bool) (h : Hooks) : Hooks :=
  {| isLoaded := b; liveCode := liveCode h;
     scrollbarWidth := scrollbarWidth h; effectDeps := effectDeps h |}.

Definition setLiveCode (text : string) (h : Hooks) : Hooks :=
  {| isLoaded := isLoaded h; liveCode := text;
     scrollbarWidth := scrollbarWidth h; effectDeps := effectDeps h |}.

Definition setScrollbarWidth (w : Z) (h : Hooks) : Hooks :=
  {| isLoaded := isLoaded h; liveCode := liveCode h;
     scrollbarWidth := w; effectDeps := effectDeps h |}.

Definition setEffectDeps (d : bool * option bool) (h : Hooks) : Hooks :=
  {| isLoaded := isLoaded h; liveCode := liveCode h;
     scrollbarWidth := scrollbarWidth h; effectDeps := Some d |}.

(** ** Effects *)

(** What the focus effect does to the page selection. *)
Inductive Action : Type :=
  | SelectAllChildren (codeElem : DomNode)
  | CollapseToStart.

(** The body of the [useEffect] with dependencies [[isLoaded, autoFocus]]. *)
Definition focusEffect (p : Props) (env : Env) (h : Hooks) : list Action :=
  if isLoaded h && truthyFlag (autoFocus p) then
    match codeRegion env with
    | Some codeElem =>
        if negb (dom_clientHeight codeElem =? 0) && window_getSelection env
        then [SelectAllChildren codeElem; CollapseToStart]
        else []
    | None => []
    end
  else [].

(** The body of the [useLayoutEffect], which has no dependency array. *)
Definition layoutEffect (env : Env) (h : Hooks) : Hooks :=
  match editorScrollRef_current env with
  | Some box => setScrollbarWidth (offsetWidth box - clientWidth box) h
  | None => h
  end.

(** One render and its commit: the layout effect runs, then the focus
    effect if one of its dependencies differs from the remembered ones. *)
Definition renderPass (p : Props) (env : Env) (h : Hooks)
  : Hooks * list Action :=
  let deps := (isLoaded h, autoFocus p) in
  let h1 := layoutEffect env h in
  if decide (effectDeps h = Some deps) then (h1, [])
  else (setEffectDeps deps h1, focusEffect p env h).

(** A render, and the second one React makes at once when the layout
    effect changed the scrollbar width.  The result carries the view of
    the last render made. *)
Definition renderAndCommit (p : Props) (env : Env) (h : Hooks)
  : Hooks * list Action * View :=
  let '(h1, acts1) := renderPass p env h in
  if decide (scrollbarWidth h1 = scrollbarWidth h) then
    (h1, acts1, render p h)
  else
    let '(h2, acts2) := renderPass p env h1 in
    (h2, acts1 ++ acts2, render p h1).

(** ** The component as a machine *)

(** A mounted component: its current props, its hook state and the
    view of its last render. *)
Record Instance : Type := {
  props : Props;
  hooks : Hooks;
  view : View
}.

(** What happens to a mounted component: the parent renders it again
    with props [p]; the mount effect of [LivePreviewWrapper] calls
    [setIsLoaded(true)]; the editor's [onChange] calls
    [setLiveCode(text)]. *)
Inductive Event : Type :=
  | ParentRender (p : Props)
  | PreviewMounted
  | EditorChange (text : string).

Definition rerender (p : Props) (env : Env) (h : Hooks)
  : Instance * list Action :=
  let '(h', acts, v) := renderAndCommit p env h in
  ({| props := p; hooks := h'; view := v |}, acts).

(** The first render of the component. *)
Definition mount (p : Props) (env : Env) : Instance * list Action :=
  rerender p env (initialHooks p).

(** One event, with the page as it is when the render it causes is
    committed.  A state setter called with the value the cell already
    holds causes no render. *)
Definition step (inst : Instance) (ev : Event) (env : Env)
  : Instance * list Action :=
  match ev with
  | ParentRender p => rerender p env (hooks inst)
  | PreviewMounted =>
      if isLoaded (hooks inst) then (inst, [])
      else rerender (props inst) env (setIsLoaded true (hooks inst))
  | EditorChange text =>
      if decide (text = liveCode (hooks inst)) then (inst, [])
      else rerender (props inst) env (setLiveCode text (hooks inst))
  end.

(** A run: the actions of each step, in order. *)
Fixpoint run (inst : Instance) (trace : list (Event * Env))
  : Instance * list (list Action) :=
  match trace with
  | [] => (inst, [])
  | (ev, env) :: rest =>
      let '(inst1, acts) := step inst ev env in
      let '(inst2, log) := run inst1 rest in
      (inst2, acts :: log)
  end.

Definition session (p : Props) (env : Env) (trace : list (Event * Env))
  : Instance * list (list Action) :=
  let '(inst0, acts0) := mount p env in
  let '(inst, log) := run inst0 trace in
  (inst, acts0 :: log).

(** How many steps of a log performed the select-and-collapse action. *)
Definition focusCount (log : list (list Action)) : nat :=
  length (List.filter
            (fun acts => match acts with [] => false | _ :: _ => true end)
            log).

(** ** The words of the specification, for the component *)

(** The text of the last [onChange], [init] if there was none. *)
Definition lastChange (init : string) (trace : list (Event * Env)) : string :=
  fold_left
    (fun cur step =>
       match fst step with
       | EditorChange text => text
       | _ => cur
       end) trace init.

(** The rendered view always shows the state it was rendered from. *)
Definition viewInSync (inst : Instance) : Prop :=
  view inst = render (props inst) (hooks inst).

(** The [autoFocus] prop keeps the value [a] in every parent render. *)
Definition constAutoFocus (a : option bool) (trace : list (Event * Env))
  : Prop :=
  Forall (fun step =>
            match fst step with
            | ParentRender p => autoFocus p = a
            | _ => True
            end) trace.

(** No step of the trace is the preview's mount. *)
Definition noPreviewMounted (trace : list (Event * Env)) : Prop :=
  Forall (fun step =>
            match fst step with
            | PreviewMounted => False
            | _ => True
            end) trace.

(** What the focus effect does when it runs with [isLoaded] set. *)
Definition focusAttempt (a : option bool) (env : Env) : list Action :=
  if truthyFlag a then
    match codeRegion env with
    | Some codeElem =>
        if negb (dom_clientHeight codeElem =? 0) && window_getSelection env
        then [SelectAllChildren codeElem; CollapseToStart]
        else []
    | None => []
    end
  else [].

(** The box model of the page: the inner width of a box is at most its
    outer width. *)
Definition boxModel (box : Box) : Prop :=
  clientWidth box <= offsetWidth box.

(** The scroll container, when the page [env] has one, obeys the box
    model. *)
Definition envBoxModel (env : Env) : Prop :=
  forall box, editorScrollRef_current env = Some box -> boxModel box.

(** After every commit the effect's remembered dependencies are those
    of the last render. *)
Definition depsInSync (a : option bool) (inst : Instance) : Prop :=
  autoFocus (props inst) = a /\
  effectDeps (hooks inst) = Some (isLoaded (hooks inst), a).

(** ** Sample pages and props *)

Definition samplePage (codeHeight : Z) : DomNode :=
  DElement ["wrapper"] 400
    [DElement ["playgroundRow"; "container"] 400
       [DElement ["editorColumn"; "playground-editor"] 400
          [DElement ["editorScroll"] 400
             [DElement ["editorToolbar"] 24 [DText "Copy"];
              DElement ["prism-code"; "playgroundEditor"] codeHeight
                [DElement ["token-line"] 20 [DText "<Layout>"];
                 DElement ["token-line"] 20 [DText "</Layout>"]]]];
        DElement ["previewColumn"] 400 []]].

Definition sampleEnv (codeHeight : Z) : Env :=
  {| playgroundRef_current := Some (samplePage codeHeight);
     editorScrollRef_current := Some {| offsetWidth := 500; clientWidth := 485 |};
     window_getSelection := true |}.

Definition sampleProps (flag : option bool) : Props :=
  {| code := None; height := None; autoFocus := flag |}.


(** * The flattener over a store of JavaScript objects

    The same function once more, with the objects it reads and creates
    kept in a store: the input elements, their style objects and
    children arrays live there, [const children = []] and the returned
    object literal allocate, [children.push] updates an array in place.
    The store holds the objects a program can reach: the closure of the
    callback and what React allocates inside [forEach] are not in it.
    Recursion is bounded by a fuel argument, since a store can hold
    cyclic structures; fuel stands for the depth of the call stack the
    engine grants, which the model does not fix. *)

Module JS.

Abbreviation loc := nat.

Inductive Val : Type :=
  | VNull
  | VUndefined
  | VBool (b : bool)
  | VString (s : string)
  | VNumber (n : Z)
  | VRef (l : loc).

Inductive Obj : Type :=
  | OArray (items : list Val)
  | OPortal
  | OElement (type : ElementType) (style : Val) (children : Val)
  | OStyle (s : FlexStyle)
  | OStyleNode (style : Val) (children : Val).

Abbreviation Heap := (list Obj).

Inductive Outcome (A : Type) : Type :=
  | Done (a : A)
  | Thrown (msg : string)
  | OutOfFuel.
Arguments Done {A} a.
Arguments Thrown {A} msg.
Arguments OutOfFuel {A}.

#[global] Instance Outcome_bind : MBind Outcome := fun A B k m =>
  match m with
  | Done a => k a
  | Thrown msg => Thrown msg
  | OutOfFuel => OutOfFuel
  end.

(** A new object gets the next free location. *)
Definition alloc (o : Obj) (h : Heap) : loc * Heap :=
  (length h, h ++ [o]).

(** [array.push(x)] *)
Definition push (array : loc) (x : Val) (h : Heap) : Outcome Heap :=
  match h !! array with
  | Some (OArray items) => Done (<[array := OArray (items ++ [x])]> h)
  | _ => Thrown "TypeError: push is not a function"
  end.

(** The fields of the element a value refers to, if it is one. *)
Definition elementAt (h : Heap) (v : Val)
  : option (ElementType * Val * Val) :=
  match v with
  | VRef l =>
      match h !! l with
      | Some (OElement t style kids) => Some (t, style, kids)
      | _ => None
      end
  | _ => None
  end.

(** The loop [for (i = 0; i < children.length; i++) visit(children[i])]
    over the array at [array], which reads the store as it is at each
    turn; [k] bounds the number of turns. *)
Fixpoint eachIndex (visit : Val -> Heap -> Outcome Heap) (array : loc)
    (k : nat) (i : nat) (h : Heap) : Outcome Heap :=
  match k with
  | O => OutOfFuel
  | S k' =>
      match h !! array with
      | Some (OArray items) =>
          match items !! i with
          | Some child =>
              h' ← visit child h;
              eachIndex visit array k' (S i) h'
          | None => Done h
          end
      | _ => Thrown "TypeError: not an array"
      end
  end.

(** What [yogaNode.props] gives, as the pair of its [style] and
    [children] fields: the props of an element; two [undefined]s for an
    object literal that has a [props] key (its value is a number or a
    string, and has neither field); nothing for any other value, where
    reading a field of [undefined] is a type error. *)
Definition propsAt (h : Heap) (v : Val) : option (Val * Val) :=
  match v with
  | VRef l =>
      match h !! l with
      | Some (OElement _ style kids) => Some (style, kids)
      | Some (OStyle s) =>
          if existsb (fun kv => String.eqb (fst kv) "props") s
          then Some (VUndefined, VUndefined)
          else None
      | _ => None
      end
  | _ => None
  end.

Section MapIntoArray.
Context (callback : Val -> Heap -> Outcome Heap).

(** React's [mapIntoArray]: arrays are walked by index, empty values
    reach the callback as [null], other objects are refused. *)
Fixpoint mapIntoArray (fuel : nat) (children : Val) (h : Heap)
  : Outcome Heap :=
  match fuel with
  | O => OutOfFuel
  | S fuel' =>
      match children with
      | VNull | VUndefined | VBool _ => callback VNull h
      | VString _ | VNumber _ => callback children h
      | VRef l =>
          match h !! l with
          | Some (OArray _) => eachIndex (mapIntoArray fuel') l fuel' O h
          | Some (OElement _ _ _) | Some OPortal => callback children h
          | Some (OStyle _) | Some (OStyleNode _ _) | None =>
              Thrown "Objects are not valid as a React child"
          end
      end
  end.
End MapIntoArray.

Definition Children_forEach (fuel : nat) (children : Val)
    (callback : Val -> Heap -> Outcome Heap) (h : Heap) : Outcome Heap :=
  match children with
  | VNull | VUndefined => Done h
  | _ => mapIntoArray callback fuel children h
  end.

(** The callback of [styleNodeFromYogaNode]; [self] is the recursive
    call, [children] the array being filled. *)
Definition pushNode (self : Val -> Heap -> Outcome (Val * Heap))
    (children : loc) (child : Val) (h : Heap) : Outcome Heap :=
  match elementAt h child with
  | Some (NodeT, _, _) =>
      '(node, h') ← self child h;
      push children node h'
  | _ => Done h
  end.

Fixpoint styleNodeFromYogaNode (fuel : nat) (yogaNode : Val) (h : Heap)
  : Outcome (Val * Heap) :=
  match fuel with
  | O => OutOfFuel
  | S fuel' =>
      let '(children, h1) := alloc (OArray []) h in
      match propsAt h1 yogaNode with
      | Some (_, kids) =>
          h2 ← Children_forEach fuel' kids
                 (pushNode (styleNodeFromYogaNode fuel') children) h1;
          match propsAt h2 yogaNode with
          | Some (style, _) =>
              let '(result, h3) :=
                alloc (OStyleNode style (VRef children)) h2 in
              Done (VRef result, h3)
          | None => Thrown "TypeError: cannot read properties"
          end
      | None => Thrown "TypeError: cannot read properties"
      end
  end.

(** ** Reading trees in the store *)

(** The style value [v] carries the attributes [s]: it refers to a
    style object that has them, or it is [undefined], the value of a
    missing [style] prop, and there are none. *)
Definition reprStyle (h : Heap) (s : FlexStyle) (v : Val) : Prop :=
  (exists l, v = VRef l /\ h !! l = Some (OStyle s)) \/
  (v = VUndefined /\ s = []).

(** The value [v] stands, in the store [h], for the React node [n].
    An element among the children is an element object of the same
    type; when the type is [Node] its style and its children are held
    too.  Of an element of another type the flattener reads the
    type only, so its props may hold anything. *)
Fixpoint repr (h : Heap) (n : ReactNode) (v : Val) : Prop :=
  match n with
  | RNull => v = VNull
  | RUndefined => v = VUndefined
  | RBool b => v = VBool b
  | RString s => v = VString s
  | RNumber k => v = VNumber k
  | RPortal => exists l, v = VRef l /\ h !! l = Some OPortal
  | RArray items =>
      exists l vs, v = VRef l /\ h !! l = Some (OArray vs) /\
        (fix all (ns : list ReactNode) (vs : list Val) : Prop :=
           match ns, vs with
           | [], [] => True
           | n' :: ns', v' :: vs' => repr h n' v' /\ all ns' vs'
           | _, _ => False
           end) items vs
  | RElem e => reprChild h e v
  end
with reprChild (h : Heap) (e : ReactElement) (v : Val) : Prop :=
  match e with
  | Element t s kids =>
      exists l sv kv, v = VRef l /\ h !! l = Some (OElement t sv kv) /\
        (t = NodeT -> reprStyle h s sv /\ repr h kids kv)
  end.

(** The value [v] stands for the element [e] the flattener is called
    on: its style and its children are held, whatever its type. *)
Definition reprElement (h : Heap) (e : ReactElement) (v : Val) : Prop :=
  match e with
  | Element t s kids =>
      exists l sv kv, v = VRef l /\ h !! l = Some (OElement t sv kv) /\
        reprStyle h s sv /\ repr h kids kv
  end.

(** The value [v] stands for the flattened tree [n], all of whose
    objects and arrays sit at locations from [lo] on. *)
Fixpoint reprStyleNode (lo : nat) (h : Heap) (n : StyleNode) (v : Val)
  : Prop :=
  match n with
  | mkStyleNode s kids =>
      exists l sv a vs,
        v = VRef l /\ (lo <= l)%nat /\ (lo <= a)%nat /\
        h !! l = Some (OStyleNode sv (VRef a)) /\
        reprStyle h s sv /\
        h !! a = Some (OArray vs) /\
        (fix all (ns : list StyleNode) (vs : list Val) : Prop :=
           match ns, vs with
           | [], [] => True
           | n' :: ns', v' :: vs' => reprStyleNode lo h n' v' /\ all ns' vs'
           | _, _ => False
           end) kids vs
  end.

(** [h'] keeps what a flattened tree above [lo] reads in [h]: the
    objects from [lo] on, and every style object. *)
Definition keepsFrom (lo : nat) (h h' : Heap) : Prop :=
  (forall l o, (lo <= l)%nat -> h !! l = Some o -> h' !! l = Some o) /\
  (forall l s, h !! l = Some (OStyle s) -> h' !! l = Some (OStyle s)).

(** While [styleNodeFromYogaNode] fills the array at [children], called
    on the store [h]: the store [hc] still starts with [h], and the
    array holds the flattened nodes [acc]. *)
Definition filling (h : Heap) (children : loc) (hc : Heap)
    (acc : list StyleNode) : Prop :=
  h `prefix_of` hc /\ (length h <= children)%nat /\
  exists vs, hc !! children = Some (OArray vs) /\
    Forall2 (reprStyleNode (S children) hc) acc vs.

(** Fuel that suffices for a tree. *)
Fixpoint size (n : ReactNode) : nat :=
  match n with
  | RArray items =>
      S (S ((fix sum (l : list ReactNode) : nat :=
               match l with
               | [] => O
               | c :: l' => S (size c + sum l')
               end) items))
  | RElem e => S (sizeElement e)
  | _ => 1%nat
  end
with sizeElement (e : ReactElement) : nat :=
  match e with
  | Element _ _ kids => S (size kids)
  end.

End JS.

(** ** What the store model is shown to do *)

(** Walking the children [n], held in the store [h], fills the array as
    the callback of the flattener fills its list. *)
Definition walkSpec (n : ReactNode) : Prop :=
  forall fuelM fuelF h children hc acc v,
    (JS.size n <= fuelM)%nat -> (JS.size n <= fuelF)%nat ->
    JS.repr h n v ->
    JS.filling h children hc acc ->
    exists hc',
      JS.mapIntoArray
        (JS.pushNode (JS.styleNodeFromYogaNode fuelF) children)
        fuelM v hc = JS.Done hc' /\
      JS.filling h children hc' (mapIntoArray pushNode n acc).

(** Flattening the element [e], held in the store [h], returns a new
    object that stands for the flattened tree, in a store that still
    starts with [h]. *)
Definition flattenSpec (e : ReactElement) : Prop :=
  forall fuel h v,
    (JS.sizeElement e <= fuel)%nat ->
    JS.reprElement h e v ->
    exists r h',
      JS.styleNodeFromYogaNode fuel v h = JS.Done (JS.VRef r, h') /\
      h `prefix_of` h' /\ (r < length h')%nat /\
      JS.reprStyleNode (length h) h' (styleNodeFromYogaNode e) (JS.VRef r).

(** A store that holds the tree of the default snippet; its root is at
    location 3. *)
Definition sampleStore : list JS.Obj :=
  [JS.OStyle [("flex", SNum 1)];
   JS.OElement NodeT (JS.VRef 0%nat) JS.VUndefined;
   JS.OStyle [("width", SNum 350); ("height", SNum 350); ("padding", SNum 20)];
   JS.OElement NodeT (JS.VRef 2%nat) (JS.VRef 1%nat)].

(** An object that is no React child: a style object or a flattened
    node. *)
Definition plainObject (o : JS.Obj) : Prop :=
  match o with
  | JS.OStyle _ | JS.OStyleNode _ _ => True
  | _ => False
  end.

(** A store with a [Node] element at location 2 whose children array
    holds a [Node] element and then a style object. *)
Definition brokenStore : list JS.Obj :=
  [JS.OStyle [("flex", SNum 1)];
   JS.OElement NodeT (JS.VRef 0%nat) JS.VUndefined;
   JS.OElement NodeT (JS.VRef 0%nat) (JS.VRef 3%nat);
   JS.OArray [JS.VRef 1%nat; JS.VRef 0%nat]].

(** The store [h'] has every location below [n] as [h] has it, and is
    no shorter. *)
Definition unchangedBelow (n : nat) (h h' : list JS.Obj) : Prop :=
  (forall l, (l < n)%nat -> h' !! l = h !! l) /\
  (length h <= length h')%nat.

(** A callback that, run on a store of [n] objects or more, leaves the
    first [n] as they are. *)
Definition framedCallback (n : nat)
    (callback : JS.Val -> list JS.Obj -> JS.Outcome (list JS.Obj)) : Prop :=
  forall c hc hc',
    (n <= length hc)%nat -> callback c hc = JS.Done hc' ->
    unchangedBelow n hc hc'.

(** A store that holds a [Node] element, at location 6, whose children
    array mixes a [Node] element, a text, a [div] without style that
    wraps the same [Node] element, [null], an empty fragment and a
    [Node] element without a [style] prop. *)
Definition mixedStore : list JS.Obj :=
  [JS.OStyle [("flex", SNum 1)];
   JS.OElement NodeT (JS.VRef 0%nat) JS.VUndefined;
   JS.OElement (HostT "div") JS.VUndefined (JS.VRef 1%nat);
   JS.OElement FragmentT JS.VUndefined JS.VUndefined;
   JS.OArray [JS.VRef 1%nat; JS.VString "text"; JS.VRef 2%nat; JS.VNull;
              JS.VRef 3%nat; JS.VRef 7%nat];
   JS.OStyle [("width", SNum 100)];
   JS.OElement NodeT (JS.VRef 5%nat) (JS.VRef 4%nat);
   JS.OElement NodeT JS.VUndefined JS.VUndefined].

(** The React tree [mixedStore] holds at location 6. *)
Definition mixedRoot : ReactElement :=
  Element NodeT [("width", SNum 100)]
    (RArray [RElem defaultInner;
             RString "text";
             RElem (Element (HostT "div") [] (RElem defaultInner));
             RNull;
             RElem (Element FragmentT [] RUndefined);
             RElem (Element NodeT [] RUndefined)]).

(** * Further vocabulary for the properties of the code *)

(** The styles of a flattened tree, root first, in document order. *)
Fixpoint stylesOf (n : StyleNode) : list FlexStyle :=
  match n with
  | mkStyleNode s kids => s :: flat_map stylesOf kids
  end.

(** The styles of the [Node] elements found anywhere in a React node, in
    document order. *)
Fixpoint nodeStyles (n : ReactNode) : list FlexStyle :=
  match n with
  | RArray items => flat_map nodeStyles items
  | RElem e => nodeStylesElement e
  | _ => []
  end
with nodeStylesElement (e : ReactElement) : list FlexStyle :=
  match e with
  | Element t s kids =>
      (if decide (t = NodeT) then [s] else []) ++ nodeStyles kids
  end.

(** The [Node] element one writes for a flattened tree: the same style,
    and the elements of the children as its children array. *)
Fixpoint asElement (n : StyleNode) : ReactElement :=
  match n with
  | mkStyleNode s kids =>
      Element NodeT s (RArray (map (fun k => RElem (asElement k)) kids))
  end.

(** The props of the last parent render of a trace, [p] without one. *)
Definition lastProps (p : Props) (trace : list (Event * Env)) : Props :=
  fold_left
    (fun cur step =>
       match fst step with
       | ParentRender p' => p'
       | _ => cur
       end) trace p.

(** The effect's remembered dependencies are those of the last render of
    the instance. *)
Definition settled (inst : Instance) : Prop :=
  depsInSync (autoFocus (props inst)) inst.

(** The nodes of the flattened children a walk over [n] pushes. *)
Definition pushedNodes (n : ReactNode) : nat :=
  length (flat_map stylesOf
            (map styleNodeFromYogaNode (omap recognized (leaves n)))).

(** In the store model, a walk over the children [n] makes the store
    longer by two objects for every flattened node it pushes. *)
Definition walkCost (n : ReactNode) : Prop :=
  forall fuelM fuelF h children hc acc v hc',
    (JS.size n <= fuelM)%nat -> (JS.size n <= fuelF)%nat ->
    JS.repr h n v ->
    JS.filling h children hc acc ->
    JS.mapIntoArray
      (JS.pushNode (JS.styleNodeFromYogaNode fuelF) children)
      fuelM v hc = JS.Done hc' ->
    length hc' = (length hc + 2 * pushedNodes n)%nat.

(** In the store model, the object returned for the element [e] is the
    last one of the new store; it holds the very style value of the
    element and the array allocated first. *)
Definition flattenCost (e : ReactElement) : Prop :=
  forall fuel h v r h',
    (JS.sizeElement e <= fuel)%nat ->
    JS.reprElement h e v ->
    JS.styleNodeFromYogaNode fuel v h = JS.Done (JS.VRef r, h') ->
    length h' =
      (length h + 2 * length (stylesOf (styleNodeFromYogaNode e)))%nat /\
    S r = length h' /\
    (forall l t sv kv,
       v = JS.VRef l -> h !! l = Some (JS.OElement t sv kv) ->
       h' !! r = Some (JS.OStyleNode sv (JS.VRef (length h)))).
(** ** The flattener walks the children sequence *)

Lemma styleNodeFromYogaNode_eq t style kids :
  styleNodeFromYogaNode (Element t style kids) =
  mkStyleNode style (Children_forEach kids pushNode []).
Proof. reflexivity. Qed.

Lemma mapIntoArray_array {S} (cb : ReactNode -> S -> S) items acc :
  mapIntoArray cb (RArray items) acc =
  fold_left (fun a c => mapIntoArray cb c a) items acc.
Proof.
  simpl. revert acc. induction items as [|c l IH]; intros acc; simpl; auto.
Qed.

Lemma pushNode_recognized child acc :
  pushNode child acc =
  acc ++ map styleNodeFromYogaNode (option_list (recognized child)).
Proof.
  destruct child; simpl; rewrite ?app_nil_r; auto.
  destruct (decide (type e = NodeT)); simpl; rewrite ?app_nil_r; auto.
Qed.

Lemma mapIntoArray_pushNode n :
  forall acc,
    mapIntoArray pushNode n acc =
    acc ++ map styleNodeFromYogaNode (omap recognized (leaves n)).
Proof.
  induction n using ReactNode_ind' with (Q := fun _ => True);
    try exact I; intros acc;
    try (simpl; rewrite ?app_nil_r; reflexivity).
  - rewrite mapIntoArray_array. simpl leaves.
    revert acc. induction H as [|c l Hc Hl IH]; intros acc; simpl.
    + now rewrite app_nil_r.
    + rewrite IH, Hc, omap_app, map_app, app_assoc. reflexivity.
  - change (mapIntoArray pushNode (RElem e) acc) with (pushNode (RElem e) acc).
    rewrite pushNode_recognized. simpl.
    destruct (decide (type e = NodeT)); reflexivity.
Qed.

Lemma Children_forEach_pushNode kids :
  Children_forEach kids pushNode [] =
  map styleNodeFromYogaNode (omap recognized (childSequence kids)).
Proof.
  destruct kids; try reflexivity;
    unfold Children_forEach, childSequence;
    rewrite mapIntoArray_pushNode; reflexivity.
Qed.

Lemma Children_count_leaves n :
  forall k, mapIntoArray (fun _ k => S k) n k = (k + length (leaves n))%nat.
Proof.
  induction n using ReactNode_ind' with (Q := fun _ => True);
    try exact I; intros k; try (simpl; lia).
  rewrite mapIntoArray_array. simpl leaves.
  revert k. induction H as [|c l Hc Hl IH]; intros k; simpl.
  - lia.
  - rewrite IH, Hc, length_app. lia.
Qed.

Lemma Children_count_childSequence children :
  Children_count children = length (childSequence children).
Proof.
  destruct children; try reflexivity;
    unfold Children_count, Children_forEach, childSequence;
    rewrite Children_count_leaves; reflexivity.
Qed.

Lemma length_omap_recognized l :
  length (omap recognized l) = length (List.filter isRecognized l).
Proof.
  induction l as [|c l IH]; simpl; [reflexivity|].
  unfold isRecognized at 1.
  destruct (recognized c); simpl; [f_equal|]; exact IH.
Qed.

(** ** One render and its commit *)

Lemma layoutEffect_fields env h :
  isLoaded (layoutEffect env h) = isLoaded h /\
  liveCode (layoutEffect env h) = liveCode h /\
  effectDeps (layoutEffect env h) = effectDeps h /\
  scrollbarWidth (layoutEffect env h) =
    match editorScrollRef_current env with
    | Some box => offsetWidth box - clientWidth box
    | None => scrollbarWidth h
    end.
Proof.
  unfold layoutEffect. destruct (editorScrollRef_current env); auto.
Qed.

Lemma renderPass_spec p env h :
  let h' := (renderPass p env h).1 in
  isLoaded h' = isLoaded h /\
  liveCode h' = liveCode h /\
  effectDeps h' = Some (isLoaded h, autoFocus p) /\
  scrollbarWidth h' = scrollbarWidth (layoutEffect env h) /\
  (renderPass p env h).2 =
    if decide (effectDeps h = Some (isLoaded h, autoFocus p)) then []
    else focusEffect p env h.
Proof.
  unfold renderPass.
  destruct (layoutEffect_fields env h) as (Hl & Hc & Hd & _).
  destruct (decide (effectDeps h = Some (isLoaded h, autoFocus p))) as [E|E];
    simpl; auto.
  rewrite Hl, Hc, Hd. auto.
Qed.

Lemma renderAndCommit_spec p env h :
  let '(h', acts, v) := renderAndCommit p env h in
  isLoaded h' = isLoaded h /\
  liveCode h' = liveCode h /\
  effectDeps h' = Some (isLoaded h, autoFocus p) /\
  scrollbarWidth h' = scrollbarWidth (layoutEffect env h) /\
  acts = (if decide (effectDeps h = Some (isLoaded h, autoFocus p)) then []
          else focusEffect p env h) /\
  v = render p h'.
Proof.
  unfold renderAndCommit.
  pose proof (renderPass_spec p env h) as H1.
  destruct (renderPass p env h) as [h1 acts1]. simpl in H1.
  destruct H1 as (Hl1 & Hc1 & Hd1 & Hs1 & Ha1).
  destruct (decide (scrollbarWidth h1 = scrollbarWidth h)) as [E|E].
  - repeat split; auto.
    unfold render. now rewrite Hc1, E.
  - pose proof (renderPass_spec p env h1) as H2.
    destruct (renderPass p env h1) as [h2 acts2]. simpl in H2.
    destruct H2 as (Hl2 & Hc2 & Hd2 & Hs2 & Ha2).
    assert (Hsame : scrollbarWidth h2 = scrollbarWidth h1).
    { rewrite Hs2, Hs1.
      destruct (layoutEffect_fields env h1) as (_ & _ & _ & ->).
      destruct (layoutEffect_fields env h) as (_ & _ & _ & Hs).
      destruct (editorScrollRef_current env); [now rewrite Hs|].
      exfalso. apply E. now rewrite Hs1, Hs. }
    repeat split; try congruence.
    + rewrite Ha2, Hd1, Hl1.
      rewrite decide_True by reflexivity. now rewrite app_nil_r.
    + unfold render. now rewrite Hc2, Hsame.
Qed.

Lemma rerender_spec p env h :
  let inst := (rerender p env h).1 in
  props inst = p /\
  isLoaded (hooks inst) = isLoaded h /\
  liveCode (hooks inst) = liveCode h /\
  effectDeps (hooks inst) = Some (isLoaded h, autoFocus p) /\
  scrollbarWidth (hooks inst) = scrollbarWidth (layoutEffect env h) /\
  view inst = render p (hooks inst) /\
  (rerender p env h).2 =
    if decide (effectDeps h = Some (isLoaded h, autoFocus p)) then []
    else focusEffect p env h.
Proof.
  unfold rerender.
  pose proof (renderAndCommit_spec p env h) as H.
  destruct (renderAndCommit p env h) as [[h' acts] v]. simpl.
  tauto.
Qed.

(** ** The text of the code region *)

Lemma getCode_spec env :
  getCode env =
  match codeRegion env with
  | Some codeElem => Ret (textContent codeElem)
  | None => Throw "Got unexpected null or undefined"
  end.
Proof. unfold getCode. destruct (codeRegion env); reflexivity. Qed.

(** ** The held snippet text *)

Lemma step_liveCode inst ev env :
  liveCode (hooks (step inst ev env).1) =
  match ev with
  | EditorChange text => text
  | _ => liveCode (hooks inst)
  end.
Proof.
  destruct ev as [p| |text]; simpl.
  - now destruct (rerender_spec p env (hooks inst)) as (_ & _ & -> & _).
  - destruct (isLoaded (hooks inst)); [reflexivity|].
    now destruct (rerender_spec (props inst) env
                    (setIsLoaded true (hooks inst))) as (_ & _ & -> & _).
  - destruct (decide (text = liveCode (hooks inst))) as [->|]; [reflexivity|].
    now destruct (rerender_spec (props inst) env
                    (setLiveCode text (hooks inst))) as (_ & _ & -> & _).
Qed.

Lemma step_viewInSync inst ev env :
  viewInSync inst -> viewInSync (step inst ev env).1.
Proof.
  intros Hv. unfold viewInSync.
  destruct ev as [p| |text]; simpl.
  - destruct (rerender_spec p env (hooks inst)) as (-> & _ & _ & _ & _ & -> & _).
    reflexivity.
  - destruct (isLoaded (hooks inst)); [exact Hv|].
    destruct (rerender_spec (props inst) env (setIsLoaded true (hooks inst)))
      as (-> & _ & _ & _ & _ & -> & _). reflexivity.
  - destruct (decide (text = liveCode (hooks inst))); [exact Hv|].
    destruct (rerender_spec (props inst) env (setLiveCode text (hooks inst)))
      as (-> & _ & _ & _ & _ & -> & _). reflexivity.
Qed.

Lemma run_cons inst ev env rest :
  run inst ((ev, env) :: rest) =
  ((run (step inst ev env).1 rest).1,
   (step inst ev env).2 :: (run (step inst ev env).1 rest).2).
Proof.
  simpl. destruct (step inst ev env) as [inst1 acts]. simpl.
  destruct (run inst1 rest); reflexivity.
Qed.

Lemma session_eq p env trace :
  session p env trace =
  ((run (mount p env).1 trace).1,
   (mount p env).2 :: (run (mount p env).1 trace).2).
Proof.
  unfold session. destruct (mount p env) as [inst0 acts0]. simpl.
  destruct (run inst0 trace); reflexivity.
Qed.

Lemma run_liveCode trace :
  forall inst,
    liveCode (hooks (run inst trace).1) =
    lastChange (liveCode (hooks inst)) trace.
Proof.
  induction trace as [|[ev env] rest IH]; intros inst; [reflexivity|].
  rewrite run_cons. simpl fst. rewrite IH, step_liveCode.
  unfold lastChange. simpl. destruct ev; reflexivity.
Qed.

Lemma run_viewInSync trace :
  forall inst, viewInSync inst -> viewInSync (run inst trace).1.
Proof.
  induction trace as [|[ev env] rest IH]; intros inst Hv; [exact Hv|].
  rewrite run_cons. simpl fst. apply IH. now apply step_viewInSync.
Qed.

Lemma mount_viewInSync p env : viewInSync (mount p env).1.
Proof.
  unfold viewInSync, mount.
  destruct (rerender_spec p env (initialHooks p))
    as (-> & _ & _ & _ & _ & -> & _).
  reflexivity.
Qed.

(** ** The focus effect *)

Lemma rerender_depsInSync p env h :
  depsInSync (autoFocus p) (rerender p env h).1.
Proof.
  destruct (rerender_spec p env h) as (Hp & Hl & _ & Hd & _).
  split; [now rewrite Hp | now rewrite Hd, Hl].
Qed.

Lemma focusEffect_loaded p env h :
  isLoaded h = true -> focusEffect p env h = focusAttempt (autoFocus p) env.
Proof. intros E. unfold focusEffect, focusAttempt. now rewrite E. Qed.

Lemma focusEffect_not_loaded p env h :
  isLoaded h = false -> focusEffect p env h = [].
Proof. intros E. unfold focusEffect. now rewrite E. Qed.

Lemma step_quiet a inst ev env :
  depsInSync a inst ->
  match ev with
  | ParentRender p => autoFocus p = a
  | PreviewMounted => isLoaded (hooks inst) = true
  | EditorChange _ => True
  end ->
  depsInSync a (step inst ev env).1 /\
  isLoaded (hooks (step inst ev env).1) = isLoaded (hooks inst) /\
  (step inst ev env).2 = [].
Proof.
  intros [Ha Hd] Hev. destruct ev as [p| |text]; simpl.
  - split; [rewrite <- Hev; apply rerender_depsInSync|].
    destruct (rerender_spec p env (hooks inst)) as (_ & Hl & _ & _ & _ & _ & ->).
    split; [exact Hl|]. rewrite Hd, Hev. now rewrite decide_True.
  - rewrite Hev. simpl. repeat split; assumption.
  - destruct (decide (text = liveCode (hooks inst))).
    + simpl. repeat split; assumption.
    + split; [rewrite <- Ha; apply rerender_depsInSync|].
      destruct (rerender_spec (props inst) env (setLiveCode text (hooks inst)))
        as (_ & Hl & _ & _ & _ & _ & ->).
      split; [exact Hl|]. simpl. rewrite Hd, Ha. now rewrite decide_True.
Qed.

Lemma step_first_preview a inst env :
  depsInSync a inst ->
  isLoaded (hooks inst) = false ->
  depsInSync a (step inst PreviewMounted env).1 /\
  isLoaded (hooks (step inst PreviewMounted env).1) = true /\
  (step inst PreviewMounted env).2 = focusAttempt a env.
Proof.
  intros [Ha Hd] Hl. simpl. rewrite Hl.
  split; [rewrite <- Ha; apply rerender_depsInSync|].
  destruct (rerender_spec (props inst) env (setIsLoaded true (hooks inst)))
    as (_ & Hl' & _ & _ & _ & _ & ->).
  split; [exact Hl'|]. simpl. rewrite Hd, Ha.
  rewrite decide_False by congruence.
  rewrite focusEffect_loaded by reflexivity. now rewrite Ha.
Qed.

Lemma run_loaded_quiet a trace :
  forall inst,
    depsInSync a inst -> isLoaded (hooks inst) = true ->
    constAutoFocus a trace ->
    (run inst trace).2 = replicate (length trace) [].
Proof.
  induction trace as [|[ev env] rest IH]; intros inst Hs Hl Hc; [reflexivity|].
  inversion Hc as [|? ? Hev Hrest]; subst. simpl in Hev.
  rewrite run_cons. simpl snd.
  destruct (step_quiet a inst ev env Hs) as (Hs' & Hl' & ->).
  { destruct ev; auto. }
  simpl. f_equal. apply IH; auto. congruence.
Qed.

Lemma run_not_loaded_quiet a trace :
  forall inst,
    depsInSync a inst -> isLoaded (hooks inst) = false ->
    constAutoFocus a trace -> noPreviewMounted trace ->
    depsInSync a (run inst trace).1 /\
    isLoaded (hooks (run inst trace).1) = false /\
    (run inst trace).2 = replicate (length trace) [].
Proof.
  induction trace as [|[ev env] rest IH]; intros inst Hs Hl Hc Hn.
  - simpl. auto.
  - inversion Hc as [|? ? Hev Hrest]; subst. simpl in Hev.
    inversion Hn as [|? ? Hev' Hrest']; subst. simpl in Hev'.
    rewrite run_cons. simpl fst. simpl snd.
    destruct (step_quiet a inst ev env Hs) as (Hs' & Hl' & ->).
    { destruct ev; auto; contradiction. }
    destruct (IH (step inst ev env).1) as (H1 & H2 & H3); auto; [congruence|].
    simpl. rewrite H3. auto.
Qed.

Lemma run_app inst t1 t2 :
  run inst (t1 ++ t2) =
  ((run (run inst t1).1 t2).1, (run inst t1).2 ++ (run (run inst t1).1 t2).2).
Proof.
  revert inst. induction t1 as [|[ev env] rest IH]; intros inst.
  - simpl. now destruct (run inst t2).
  - rewrite <- app_comm_cons, !run_cons, IH. reflexivity.
Qed.

Lemma focusCount_replicate n : focusCount (replicate n []) = 0%nat.
Proof. induction n; simpl; auto. Qed.

Lemma focusCount_app l1 l2 :
  focusCount (l1 ++ l2) = (focusCount l1 + focusCount l2)%nat.
Proof. unfold focusCount. now rewrite List.filter_app, length_app. Qed.

Lemma focusCount_one acts : (focusCount [acts] <= 1)%nat.
Proof. unfold focusCount. simpl. destruct acts; simpl; lia. Qed.

Lemma mount_quiet p env :
  depsInSync (autoFocus p) (mount p env).1 /\
  isLoaded (hooks (mount p env).1) = false /\
  (mount p env).2 = [].
Proof.
  unfold mount. split; [apply rerender_depsInSync|].
  destruct (rerender_spec p env (initialHooks p))
    as (_ & Hl & _ & _ & _ & _ & ->).
  split; [exact Hl|]. reflexivity.
Qed.

Lemma trace_split (trace : list (Event * Env)) :
  noPreviewMounted trace \/
  exists pre env post,
    trace = pre ++ (PreviewMounted, env) :: post /\ noPreviewMounted pre.
Proof.
  induction trace as [|[ev env] rest IH].
  - left. constructor.
  - destruct ev as [p| |text].
    + destruct IH as [IH | (pre & env' & post & -> & Hpre)].
      * left. constructor; [exact I | exact IH].
      * right. exists ((ParentRender p, env) :: pre), env', post.
        split; [reflexivity|]. constructor; [exact I | exact Hpre].
    + right. exists [], env, rest. split; [reflexivity | constructor].
    + destruct IH as [IH | (pre & env' & post & -> & Hpre)].
      * left. constructor; [exact I | exact IH].
      * right. exists ((EditorChange text, env) :: pre), env', post.
        split; [reflexivity|]. constructor; [exact I | exact Hpre].
Qed.

Lemma session_log_quiet p env0 trace :
  constAutoFocus (autoFocus p) trace -> noPreviewMounted trace ->
  (session p env0 trace).2 = replicate (S (length trace)) [].
Proof.
  intros Hc Hn. rewrite session_eq. cbn [fst snd].
  destruct (mount_quiet p env0) as (Hs & Hl & ->).
  destruct (run_not_loaded_quiet _ trace _ Hs Hl Hc Hn) as (_ & _ & ->).
  reflexivity.
Qed.

Lemma session_log_first_preview p env0 pre env post :
  constAutoFocus (autoFocus p) (pre ++ (PreviewMounted, env) :: post) ->
  noPreviewMounted pre ->
  (session p env0 (pre ++ (PreviewMounted, env) :: post)).2 =
  replicate (S (length pre)) [] ++
  focusAttempt (autoFocus p) env :: replicate (length post) [].
Proof.
  intros Hc Hn. rewrite session_eq, run_app, run_cons. cbn [fst snd].
  destruct (mount_quiet p env0) as (Hs & Hl & ->).
  apply Forall_app in Hc as [Hpre Hrest].
  inversion Hrest as [|? ? _ Hpost]; subst.
  destruct (run_not_loaded_quiet _ pre _ Hs Hl Hpre Hn) as (Hs1 & Hl1 & ->).
  destruct (step_first_preview _ _ env Hs1 Hl1) as (Hs2 & Hl2 & ->).
  rewrite (run_loaded_quiet _ post _ Hs2 Hl2 Hpost).
  reflexivity.
Qed.

(** ** The scrollbar width over a session *)

Lemma rerender_scrollbar_nonneg p env h :
  0 <= scrollbarWidth h -> envBoxModel env ->
  0 <= scrollbarWidth (hooks (rerender p env h).1).
Proof.
  intros Hh Hbox.
  destruct (rerender_spec p env h) as (_ & _ & _ & _ & -> & _).
  destruct (layoutEffect_fields env h) as (_ & _ & _ & ->).
  destruct (editorScrollRef_current env) as [box|] eqn:E; [|exact Hh].
  specialize (Hbox box E). unfold boxModel in Hbox. lia.
Qed.

Lemma step_scrollbar_nonneg inst ev env :
  0 <= scrollbarWidth (hooks inst) -> envBoxModel env ->
  0 <= scrollbarWidth (hooks (step inst ev env).1).
Proof.
  intros H0 Hbox. destruct ev as [p| |text]; simpl.
  - now apply rerender_scrollbar_nonneg.
  - destruct (isLoaded (hooks inst));
      [exact H0 | now apply rerender_scrollbar_nonneg].
  - destruct (decide (text = liveCode (hooks inst)));
      [exact H0 | now apply rerender_scrollbar_nonneg].
Qed.

Lemma run_scrollbar_nonneg trace :
  forall inst,
    0 <= scrollbarWidth (hooks inst) ->
    Forall envBoxModel (map snd trace) ->
    0 <= scrollbarWidth (hooks (run inst trace).1).
Proof.
  induction trace as [|[ev env] rest IH]; intros inst H0 Hall; [exact H0|].
  inversion Hall as [|? ? Henv Hrest]; subst.
  rewrite run_cons. simpl fst. apply IH; [|exact Hrest].
  now apply step_scrollbar_nonneg.
Qed.


(** * The store model agrees with the flattener *)

Lemma all_Forall2 {A B} (R : A -> B -> Prop) ns vs :
  (fix all (ns : list A) (vs : list B) : Prop :=
     match ns, vs with
     | [], [] => True
     | n' :: ns', v' :: vs' => R n' v' /\ all ns' vs'
     | _, _ => False
     end) ns vs <-> Forall2 R ns vs.
Proof.
  revert vs. induction ns as [|n ns IH]; intros [|v vs]; split; intros H.
  - constructor.
  - exact I.
  - contradiction.
  - inversion H.
  - contradiction.
  - inversion H.
  - destruct H as [H1 H2]. constructor; [exact H1 | now apply IH].
  - inversion H; subst. split; [assumption | now apply IH].
Qed.

Lemma repr_array h items v :
  JS.repr h (RArray items) v <->
  exists l vs, v = JS.VRef l /\ h !! l = Some (JS.OArray vs) /\
    Forall2 (JS.repr h) items vs.
Proof.
  simpl. split; intros (l & vs & Hv & Hl & Hall); exists l, vs;
    (split; [exact Hv|]); (split; [exact Hl|]);
    now apply (all_Forall2 (JS.repr h)).
Qed.

Lemma reprStyleNode_unfold lo h s kids v :
  JS.reprStyleNode lo h (mkStyleNode s kids) v <->
  exists l sv a vs,
    v = JS.VRef l /\ (lo <= l)%nat /\ (lo <= a)%nat /\
    h !! l = Some (JS.OStyleNode sv (JS.VRef a)) /\
    JS.reprStyle h s sv /\
    h !! a = Some (JS.OArray vs) /\
    Forall2 (JS.reprStyleNode lo h) kids vs.
Proof.
  simpl. split; intros (l & sv & a & vs & H1 & H2 & H3 & H4 & H5 & H6 & H7);
    exists l, sv, a, vs; repeat (split; [assumption|]);
    now apply (all_Forall2 (JS.reprStyleNode lo h)).
Qed.

Lemma size_array items :
  JS.size (RArray items) =
  S (S (list_sum (map (fun c => S (JS.size c)) items))).
Proof.
  simpl. do 2 f_equal. induction items as [|c l IH]; simpl; auto.
Qed.

(** ** What a longer store keeps *)

Lemma reprStyle_prefix h h' s v :
  h `prefix_of` h' -> JS.reprStyle h s v -> JS.reprStyle h' s v.
Proof.
  intros Hp [(l & -> & Hl) | [-> ->]]; [left | right; auto].
  exists l. split; [reflexivity|].
  eapply prefix_lookup_Some; eauto.
Qed.

Lemma repr_prefix n :
  forall h h' v, h `prefix_of` h' -> JS.repr h n v -> JS.repr h' n v.
Proof.
  induction n using ReactNode_ind'
    with (Q := fun e => forall h h' v, h `prefix_of` h' ->
                 (JS.reprChild h e v -> JS.reprChild h' e v) /\
                 (JS.reprElement h e v -> JS.reprElement h' e v));
    intros h h' v Hp; try (intros Hr; exact Hr).
  - intros (l & -> & Hl). exists l. split; [reflexivity|].
    eapply prefix_lookup_Some; eauto.
  - intros Hr. apply repr_array in Hr as (l & vs & -> & Hl & Hall).
    apply repr_array. exists l, vs. split; [reflexivity|].
    split; [eapply prefix_lookup_Some; eauto|].
    clear Hl. revert vs Hall.
    induction H as [|c items Hc _ IH]; intros vs Hall;
      inversion Hall; subst; constructor; eauto.
  - intros Hr. now apply (IHn h h' v Hp).
  - split.
    + intros (l & sv & kv & -> & Hl & Himp).
      exists l, sv, kv. split; [reflexivity|].
      split; [eapply prefix_lookup_Some; eauto|].
      intros Ht. destruct (Himp Ht) as [Hs Hk].
      split; [eapply reprStyle_prefix; eauto | eauto].
    + intros (l & sv & kv & -> & Hl & Hs & Hk).
      exists l, sv, kv. split; [reflexivity|].
      split; [eapply prefix_lookup_Some; eauto|].
      split; [eapply reprStyle_prefix; eauto | eauto].
Qed.

Lemma reprElement_prefix e h h' v :
  h `prefix_of` h' -> JS.reprElement h e v -> JS.reprElement h' e v.
Proof.
  destruct e as [t s kids].
  intros Hp (l & sv & kv & -> & Hl & Hs & Hk).
  exists l, sv, kv. split; [reflexivity|].
  split; [eapply prefix_lookup_Some; eauto|].
  split; [eapply reprStyle_prefix; eauto | eapply repr_prefix; eauto].
Qed.

Lemma reprChild_Node h s kids v :
  JS.reprChild h (Element NodeT s kids) v <->
  JS.reprElement h (Element NodeT s kids) v.
Proof.
  split.
  - intros (l & sv & kv & -> & Hl & Himp). destruct (Himp eq_refl).
    exists l, sv, kv. auto.
  - intros (l & sv & kv & -> & Hl & Hs & Hk). exists l, sv, kv. auto.
Qed.

Lemma keepsFrom_prefix lo h h' : h `prefix_of` h' -> JS.keepsFrom lo h h'.
Proof.
  intros Hp. split; intros; eapply prefix_lookup_Some; eauto.
Qed.

Lemma keepsFrom_push lo (h : list JS.Obj) a vs vs' :
  (a < lo)%nat -> h !! a = Some (JS.OArray vs) ->
  JS.keepsFrom lo h (<[a := JS.OArray vs']> h).
Proof.
  intros Ha Hl. split.
  - intros l o Hlo Hlook. rewrite list_lookup_insert_ne by lia. exact Hlook.
  - intros l s Hlook. rewrite list_lookup_insert_ne; [exact Hlook|].
    intros ->. congruence.
Qed.

Lemma reprStyleNode_keeps n :
  forall lo h h' v,
    JS.keepsFrom lo h h' ->
    JS.reprStyleNode lo h n v -> JS.reprStyleNode lo h' n v.
Proof.
  induction n as [s kids IH] using StyleNode_ind'.
  intros lo h h' v Hk Hr.
  apply reprStyleNode_unfold in Hr
    as (l & sv & a & vs & -> & Hl & Ha & Hnode & Hs & Harr & Hall).
  apply reprStyleNode_unfold. exists l, sv, a, vs.
  destruct Hk as [Hk1 Hk2].
  repeat (split; [solve [auto]|]).
  split.
  { destruct Hs as [(ls & -> & Hls) | [-> ->]]; [left | right; auto].
    exists ls. auto. }
  split; [auto|].
  clear Harr. revert vs Hall.
  induction IH as [|c l' Hc _ IHl]; intros vs Hall;
    inversion Hall; subst; constructor; auto.
  apply Hc with (h := h); [split|]; auto.
Qed.

Lemma reprStyleNode_weaken n :
  forall lo lo' h v,
    (lo' <= lo)%nat ->
    JS.reprStyleNode lo h n v -> JS.reprStyleNode lo' h n v.
Proof.
  induction n as [s kids IH] using StyleNode_ind'.
  intros lo lo' h v Hle Hr.
  apply reprStyleNode_unfold in Hr
    as (l & sv & a & vs & -> & Hl & Ha & Hnode & Hs & Harr & Hall).
  apply reprStyleNode_unfold. exists l, sv, a, vs.
  split; [reflexivity|]. split; [lia|]. split; [lia|].
  repeat (split; [assumption|]).
  clear Harr. revert vs Hall.
  induction IH as [|c l' Hc _ IHl]; intros vs Hall;
    inversion Hall; subst; constructor; eauto.
Qed.

Lemma prefix_insert_above {A} (h hc : list A) a o :
  h `prefix_of` hc -> (length h <= a)%nat -> h `prefix_of` <[a := o]> hc.
Proof.
  intros [ext ->] Ha. exists (<[(a - length h)%nat := o]> ext).
  rewrite insert_app_r_alt by lia. reflexivity.
Qed.

(** ** Filling the children array *)

Lemma filling_push h arr hc hc' acc n r :
  JS.filling h arr hc acc ->
  hc `prefix_of` hc' ->
  JS.reprStyleNode (length hc) hc' n (JS.VRef r) ->
  exists hc'',
    JS.push arr (JS.VRef r) hc' = JS.Done hc'' /\
    JS.filling h arr hc'' (acc ++ [n]).
Proof.
  intros (Hp & Hle & vs & Harr & Hall) Hpre Hn.
  assert (Harr' : hc' !! arr = Some (JS.OArray vs))
    by (eapply prefix_lookup_Some; eauto).
  assert (Hlt : (arr < length hc)%nat) by (eapply lookup_lt_Some; eauto).
  assert (Hlt' : (arr < length hc')%nat) by (eapply lookup_lt_Some; eauto).
  unfold JS.push. rewrite Harr'. eexists. split; [reflexivity|].
  pose proof (keepsFrom_push (S arr) hc' arr vs (vs ++ [JS.VRef r])
                ltac:(lia) Harr') as Hk.
  split; [|split; [exact Hle|]].
  - apply prefix_insert_above; [|exact Hle]. now transitivity hc.
  - exists (vs ++ [JS.VRef r]). split.
    + now apply list_lookup_insert_eq.
    + apply Forall2_app.
      * eapply Forall2_impl; [exact Hall|]. intros x y Hxy. simpl in Hxy.
        eapply reprStyleNode_keeps; [exact Hk|].
        eapply reprStyleNode_keeps; [|exact Hxy].
        now apply keepsFrom_prefix.
      * constructor; [|constructor].
        eapply reprStyleNode_keeps; [exact Hk|].
        eapply reprStyleNode_weaken; [|exact Hn]. lia.
Qed.

Lemma eachIndex_walk rest :
  Forall walkSpec rest ->
  forall fuelF f k h arr l done_vs rest_vs hc acc,
    h !! l = Some (JS.OArray (done_vs ++ rest_vs)) ->
    Forall2 (JS.repr h) rest rest_vs ->
    (length rest < k)%nat ->
    (list_sum (map (fun c => S (JS.size c)) rest) <= f)%nat ->
    (list_sum (map (fun c => S (JS.size c)) rest) <= fuelF)%nat ->
    JS.filling h arr hc acc ->
    exists hc',
      JS.eachIndex
        (JS.mapIntoArray
           (JS.pushNode (JS.styleNodeFromYogaNode fuelF) arr) f)
        l k (length done_vs) hc = JS.Done hc' /\
      JS.filling h arr hc'
        (fold_left (fun a c => mapIntoArray pushNode c a) rest acc).
Proof.
  induction 1 as [|c rest Hc _ IH];
    intros fuelF f k h arr l done_vs rest_vs hc acc Hl Hall Hk Hf HF Hfill;
    (assert (Hl' : hc !! l = Some (JS.OArray (done_vs ++ rest_vs)))
      by (eapply prefix_lookup_Some; [exact Hl | apply Hfill]));
    inversion Hall as [|? v ? vs' Hcv Hrest]; subst;
    (destruct k as [|k]; [simpl in Hk; lia|]).
  - simpl. rewrite Hl', app_nil_r, lookup_ge_None_2 by lia.
    eauto.
  - simpl in Hf, HF, Hk.
    simpl. rewrite Hl'.
    rewrite list_lookup_middle by reflexivity.
    destruct (Hc f fuelF h arr hc acc v) as (hc1 & -> & Hfill1);
      [lia | lia | assumption | assumption |].
    simpl.
    specialize (IH fuelF f k h arr l (done_vs ++ [v]) vs' hc1
                  (mapIntoArray pushNode c acc)).
    rewrite length_app, Nat.add_1_r, <- app_assoc in IH.
    apply IH; auto; lia.
Qed.

Lemma walk_array items : Forall walkSpec items -> walkSpec (RArray items).
Proof.
  intros H.
  intros fuelM fuelF h arr hc acc v HfM HfF Hr Hfill.
  destruct fuelM as [|f]; [simpl in HfM; lia|].
  apply repr_array in Hr as (l & vs & -> & Hl & Hall).
  assert (Hl' : hc !! l = Some (JS.OArray vs))
    by (eapply prefix_lookup_Some; [exact Hl | apply Hfill]).
  rewrite size_array in HfM, HfF.
  rewrite mapIntoArray_array.
  simpl. rewrite Hl'.
  apply (eachIndex_walk items H fuelF f f h arr l [] vs hc acc);
    auto; try lia.
  pose proof (length_map (fun c => S (JS.size c)) items) as Hlen.
  assert (length items <= list_sum (map (fun c => S (JS.size c)) items))%nat.
  { clear. induction items; simpl; lia. }
  lia.
Qed.

Lemma walk_element e : flattenSpec e -> walkSpec (RElem e).
Proof.
  intros IHn.
  intros fuelM fuelF h arr hc acc v HfM HfF Hr Hfill.
  destruct fuelM as [|f]; [simpl in HfM; lia|].
  change (JS.size (RElem e)) with (S (JS.sizeElement e)) in HfM, HfF.
  pose proof (repr_prefix (RElem e) h hc v ltac:(apply Hfill) Hr) as Hr'.
  destruct e as [t s kids].
  destruct Hr' as (l & sv & kv & -> & Hl & Himp).
  change (mapIntoArray pushNode (RElem (Element t s kids)) acc)
    with (pushNode (RElem (Element t s kids)) acc).
  simpl JS.mapIntoArray. rewrite Hl.
  unfold JS.pushNode at 1. simpl JS.elementAt. rewrite Hl.
  unfold pushNode. simpl type.
  destruct (decide (t = NodeT)) as [->|Ht].
  - destruct (IHn fuelF hc (JS.VRef l)) as (r & hc1 & -> & Hp1 & Hr1 & Hn1).
    { lia. }
    { destruct (Himp eq_refl). exists l, sv, kv. auto. }
    simpl.
    eapply filling_push; eauto.
  - exists hc. split; [|exact Hfill]. destruct t; try reflexivity.
    congruence.
Qed.

Lemma flatten_element t s kids :
  walkSpec kids -> flattenSpec (Element t s kids).
Proof.
  intros IHn.
  intros fuel h v Hf Hr. simpl in Hf.
  destruct fuel as [|f]; [lia|].
  destruct Hr as (l & sv & kv & -> & Hl & Hs & Hk).
  rewrite styleNodeFromYogaNode_eq.
  simpl JS.styleNodeFromYogaNode.
  rewrite (lookup_app_l_Some _ _ _ _ Hl).
  assert (Hfill0 : JS.filling h (length h) (h ++ [JS.OArray []]) []).
  { split; [now apply prefix_app_r|]. split; [lia|].
    exists []. split; [|constructor].
    now rewrite lookup_app_r, Nat.sub_diag by lia. }
  assert (Hwalk : exists h2,
    JS.Children_forEach f kv
      (JS.pushNode (JS.styleNodeFromYogaNode f) (length h))
      (h ++ [JS.OArray []]) = JS.Done h2 /\
    JS.filling h (length h) h2 (Children_forEach kids pushNode [])).
  { assert (Hgo : forall kv', kv' = kv -> JS.repr h kids kv' ->
      exists h2,
        JS.mapIntoArray
          (JS.pushNode (JS.styleNodeFromYogaNode f) (length h))
          f kv (h ++ [JS.OArray []]) = JS.Done h2 /\
        JS.filling h (length h) h2 (mapIntoArray pushNode kids [])).
    { intros kv' -> Hk'. eapply IHn; eauto; lia. }
    destruct kids; simpl in Hk;
      try (subst kv; eexists; split; [reflexivity | exact Hfill0]);
      try (subst kv; apply (Hgo _ eq_refl); reflexivity).
    - destruct Hk as (l' & -> & Hl').
      apply (Hgo _ eq_refl). exists l'. auto.
    - destruct Hk as (l' & vs & -> & Hk).
      apply (Hgo _ eq_refl). exists l', vs. auto.
    - destruct e as [t' s' k'].
      destruct Hk as (l' & sv' & kv' & -> & Hk).
      apply (Hgo _ eq_refl). exists l', sv', kv'. auto. }
  destruct Hwalk as (h2 & -> & Hp2 & _ & vs & Harr & Hall).
  simpl. rewrite (prefix_lookup_Some _ _ _ _ Hl Hp2).
  exists (length h2), (h2 ++ [JS.OStyleNode sv (JS.VRef (length h))]).
  split; [reflexivity|].
  assert (Hp3 : h2 `prefix_of` h2 ++ [JS.OStyleNode sv (JS.VRef (length h))])
    by now apply prefix_app_r.
  split; [now transitivity h2|].
  split; [rewrite length_app; simpl; lia|].
  apply reprStyleNode_unfold.
  exists (length h2), sv, (length h), vs.
  split; [reflexivity|].
  split; [now apply prefix_length|].
  split; [lia|].
  split; [now rewrite lookup_app_r, Nat.sub_diag by lia|].
  split; [eapply reprStyle_prefix; [|exact Hs]; now transitivity h2|].
  split; [eapply prefix_lookup_Some; eauto|].
  eapply Forall2_impl; [exact Hall|]. intros x y Hxy. simpl in Hxy.
  eapply reprStyleNode_keeps; [apply keepsFrom_prefix; exact Hp3|].
  eapply reprStyleNode_weaken; [|exact Hxy]. lia.
Qed.

Lemma walk_correct n : walkSpec n.
Proof.
  induction n using ReactNode_ind' with (Q := flattenSpec);
    try (intros fuelM fuelF h arr hc acc v HfM HfF Hr Hfill;
         destruct fuelM as [|f]; [simpl in HfM; lia|];
         simpl in Hr; subst; exists hc;
         split; [reflexivity | exact Hfill]).
  - intros fuelM fuelF h arr hc acc v HfM HfF Hr Hfill.
    destruct fuelM as [|f]; [simpl in HfM; lia|].
    destruct Hr as (l & -> & Hl). exists hc. split; [|exact Hfill].
    assert (Hl' : hc !! l = Some JS.OPortal)
      by (eapply prefix_lookup_Some; [exact Hl | apply Hfill]).
    simpl. rewrite Hl'. unfold JS.pushNode. simpl. now rewrite Hl'.
  - now apply walk_array.
  - now apply walk_element.
  - now apply flatten_element.
Qed.

Lemma flatten_correct e : flattenSpec e.
Proof. destruct e as [t s kids]. apply flatten_element, walk_correct. Qed.

(** ** Reading a flattened tree back *)

Lemma reprStyleNode_functional n1 :
  forall n2 lo1 lo2 h v,
    JS.reprStyleNode lo1 h n1 v -> JS.reprStyleNode lo2 h n2 v -> n1 = n2.
Proof.
  induction n1 as [s1 kids1 IH] using StyleNode_ind'.
  intros [s2 kids2] lo1 lo2 h v H1 H2.
  apply reprStyleNode_unfold in H1
    as (l & sv & a & vs & -> & _ & _ & Hnode & Hs & Harr & Hall).
  apply reprStyleNode_unfold in H2
    as (l2 & sv2 & a2 & vs2 & [= <-] & _ & _ & Hnode2 & Hs2 & Harr2 & Hall2).
  rewrite Hnode in Hnode2. injection Hnode2 as <- <-.
  rewrite Harr in Harr2. injection Harr2 as <-.
  assert (s1 = s2) as <-.
  { destruct Hs as [(ls & -> & Hls) | [-> ->]];
      destruct Hs2 as [(ls2 & E2 & Hls2) | [E2 ->]];
      try discriminate E2; [|reflexivity].
    injection E2 as <-. rewrite Hls in Hls2. now injection Hls2. }
  f_equal. clear Hnode Harr.
  revert kids2 vs Hall Hall2.
  induction IH as [|c l' Hc _ IHl]; intros kids2 vs Hall Hall2;
    inversion Hall; subst; inversion Hall2; subst; [reflexivity|].
  f_equal; eauto.
Qed.

Lemma reprStyleNode_fresh lo h n r :
  JS.reprStyleNode lo h n (JS.VRef r) -> (lo <= r < length h)%nat.
Proof.
  destruct n as [s kids]. intros H.
  apply reprStyleNode_unfold in H
    as (l & sv & a & vs & [= <-] & Hlo & _ & Hnode & _).
  split; [exact Hlo | eapply lookup_lt_Some; eauto].
Qed.

Lemma flatten_no_children e :
  childSequence (props_children e) = [] ->
  sn_children (styleNodeFromYogaNode e) = [].
Proof.
  destruct e as [t s kids]. simpl props_children. intros H.
  rewrite styleNodeFromYogaNode_eq, Children_forEach_pushNode, H.
  reflexivity.
Qed.

(** ** Children that are no React nodes *)

Lemma mapIntoArray_plain_object cb f (hc : list JS.Obj) o obj :
  hc !! o = Some obj -> plainObject obj ->
  JS.mapIntoArray cb (S f) (JS.VRef o) hc =
    JS.Thrown "Objects are not valid as a React child".
Proof.
  intros Ho Hp. simpl. rewrite Ho. destruct obj; simpl in Hp; tauto.
Qed.

Lemma eachIndex_throws items :
  forall fuelF f k h arr l o obj done_vs vs rest hc acc,
    h !! l = Some (JS.OArray (done_vs ++ vs ++ JS.VRef o :: rest)) ->
    Forall2 (JS.repr h) items vs ->
    h !! o = Some obj -> plainObject obj ->
    (length items < k)%nat ->
    (list_sum (map (fun c => S (JS.size c)) items) < f)%nat ->
    (list_sum (map (fun c => S (JS.size c)) items) <= fuelF)%nat ->
    JS.filling h arr hc acc ->
    JS.eachIndex
      (JS.mapIntoArray
         (JS.pushNode (JS.styleNodeFromYogaNode fuelF) arr) f)
      l k (length done_vs) hc =
    JS.Thrown "Objects are not valid as a React child".
Proof.
  induction items as [|c items IH];
    intros fuelF f k h arr l o obj done_vs vs rest hc acc
      Hl Hall Ho Hp Hk Hf HF Hfill;
    (assert (Hl' : hc !! l =
               Some (JS.OArray (done_vs ++ vs ++ JS.VRef o :: rest)))
      by (eapply prefix_lookup_Some; [exact Hl | apply Hfill]));
    inversion Hall as [|? v ? vs' Hcv Hrest]; subst;
    (destruct k as [|k]; [simpl in Hk; lia|]);
    (destruct f as [|f]; [simpl in Hf; lia|]).
  - simpl app in Hl'. cbn [JS.eachIndex]. rewrite Hl'.
    rewrite list_lookup_middle by reflexivity.
    rewrite (mapIntoArray_plain_object _ f hc o obj); [reflexivity| |exact Hp].
    eapply prefix_lookup_Some; [exact Ho | apply Hfill].
  - simpl in Hf, HF, Hk.
    cbn [JS.eachIndex]. rewrite Hl'. simpl app.
    rewrite list_lookup_middle by reflexivity.
    destruct (walk_correct c (S f) fuelF h arr hc acc v) as (hc1 & -> & Hfill1);
      [lia | lia | assumption | assumption |].
    cbn [mbind JS.Outcome_bind].
    specialize (IH fuelF (S f) k h arr l o obj (done_vs ++ [v]) vs' rest hc1
                  (mapIntoArray pushNode c acc)).
    rewrite length_app, Nat.add_1_r, <- app_assoc in IH.
    apply IH; auto; lia.
Qed.

Lemma JS_flatten_step f (h : list JS.Obj) l t sv kv :
  h !! l = Some (JS.OElement t sv kv) ->
  JS.styleNodeFromYogaNode (S f) (JS.VRef l) h =
  (h2 ← JS.Children_forEach f kv
          (JS.pushNode (JS.styleNodeFromYogaNode f) (length h))
          (h ++ [JS.OArray []]);
   match JS.propsAt h2 (JS.VRef l) with
   | Some (style, _) =>
       JS.Done (JS.VRef (length h2),
                h2 ++ [JS.OStyleNode style (JS.VRef (length h))])
   | None => JS.Thrown "TypeError: cannot read properties"
   end).
Proof.
  intros Hl. simpl. now rewrite (lookup_app_l_Some _ _ _ _ Hl).
Qed.

Lemma JS_mapIntoArray_array cb f (hc : list JS.Obj) a vs :
  hc !! a = Some (JS.OArray vs) ->
  JS.mapIntoArray cb (S f) (JS.VRef a) hc =
  JS.eachIndex (JS.mapIntoArray cb f) a f 0 hc.
Proof. intros Ha. simpl. now rewrite Ha. Qed.

Lemma object_child_throws (h : list JS.Obj) (l a o : nat)
    (t : ElementType) (sv : JS.Val) (obj : JS.Obj)
    (items : list ReactNode) (vs rest : list JS.Val) (fuel : nat) :
  h !! l = Some (JS.OElement t sv (JS.VRef a)) ->
  h !! a = Some (JS.OArray (vs ++ JS.VRef o :: rest)) ->
  Forall2 (JS.repr h) items vs ->
  h !! o = Some obj -> plainObject obj ->
  (list_sum (map (fun c => S (JS.size c)) items) + 3 <= fuel)%nat ->
  JS.styleNodeFromYogaNode fuel (JS.VRef l) h =
    JS.Thrown "Objects are not valid as a React child".
Proof.
  intros Hl Ha Hall Ho Hp Hf.
  destruct fuel as [|[|[|f]]]; try lia.
  rewrite (JS_flatten_step _ h l t sv _ Hl).
  unfold JS.Children_forEach.
  rewrite (JS_mapIntoArray_array _ _ _ a _ (lookup_app_l_Some _ _ _ _ Ha)).
  assert (Hfill0 : JS.filling h (length h) (h ++ [JS.OArray []]) []).
  { split; [now apply prefix_app_r|]. split; [lia|].
    exists []. split; [|constructor].
    now rewrite lookup_app_r, Nat.sub_diag by lia. }
  assert (Hlen : (length items <=
                  list_sum (map (fun c => S (JS.size c)) items))%nat).
  { clear. induction items; simpl; lia. }
  pose proof (eachIndex_throws items (S (S f)) (S f) (S f) h (length h) a o
                obj [] vs rest (h ++ [JS.OArray []]) []
                Ha Hall Ho Hp ltac:(lia) ltac:(lia) ltac:(lia) Hfill0) as E.
  simpl length in E. rewrite E. reflexivity.
Qed.
(** ** What no run writes to *)

Lemma unchangedBelow_refl n h : unchangedBelow n h h.
Proof. split; auto. Qed.

Lemma unchangedBelow_trans n h1 h2 h3 :
  unchangedBelow n h1 h2 -> unchangedBelow n h2 h3 -> unchangedBelow n h1 h3.
Proof.
  intros [H1 L1] [H2 L2]. split; [|lia].
  intros l Hl. rewrite H2, H1 by exact Hl. reflexivity.
Qed.

Lemma unchangedBelow_alloc n (h : list JS.Obj) o :
  (n <= length h)%nat -> unchangedBelow n h (h ++ [o]).
Proof.
  intros Hn. split; [|rewrite length_app; lia].
  intros l Hl. apply lookup_app_l. lia.
Qed.

Lemma unchangedBelow_insert n (h : list JS.Obj) a o :
  (n <= a)%nat -> unchangedBelow n h (<[a := o]> h).
Proof.
  intros Hn. split; [|now rewrite length_insert].
  intros l Hl. apply list_lookup_insert_ne. lia.
Qed.

Lemma unchangedBelow_prefix (h h' : list JS.Obj) :
  unchangedBelow (length h) h h' -> h `prefix_of` h'.
Proof.
  intros [H L]. exists (drop (length h) h').
  rewrite <- (take_drop (length h) h') at 1. f_equal.
  apply list_eq. intros i.
  destruct (decide (i < length h)%nat) as [Hi|Hi].
  - rewrite lookup_take_lt by exact Hi. now apply H.
  - rewrite lookup_take_ge by lia. symmetry. apply lookup_ge_None_2. lia.
Qed.

Lemma eachIndex_frame n visit :
  framedCallback n visit ->
  forall k l i hc hc',
    (n <= length hc)%nat ->
    JS.eachIndex visit l k i hc = JS.Done hc' ->
    unchangedBelow n hc hc'.
Proof.
  intros Hv. induction k as [|k IH]; intros l i hc hc' Hn E; [discriminate|].
  simpl in E.
  destruct (hc !! l) as [[items| | | |]|]; try discriminate.
  destruct (items !! i) as [child|].
  - destruct (visit child hc) as [hc1| |] eqn:E1; try discriminate.
    simpl in E. pose proof (Hv child hc hc1 Hn E1) as H1.
    eapply unchangedBelow_trans; [exact H1|].
    eapply IH; [|exact E]. destruct H1. lia.
  - injection E as <-. apply unchangedBelow_refl.
Qed.

Lemma mapIntoArray_frame n callback :
  framedCallback n callback ->
  forall fuel, framedCallback n (JS.mapIntoArray callback fuel).
Proof.
  intros Hcb. induction fuel as [|f IH]; intros c hc hc' Hn E; [discriminate|].
  simpl in E. destruct c as [| | | | |l]; try (eapply Hcb; eauto; fail).
  destruct (hc !! l) as [[items| | | |]|]; try discriminate;
    try (eapply Hcb; eauto; fail).
  eapply eachIndex_frame; eauto.
Qed.

Lemma pushNode_frame n self children :
  (n <= children)%nat ->
  (forall v h r h',
     (n <= length h)%nat -> self v h = JS.Done (r, h') ->
     unchangedBelow n h h') ->
  framedCallback n (JS.pushNode self children).
Proof.
  intros Hc Hself c hc hc' Hn E. unfold JS.pushNode in E.
  destruct (JS.elementAt hc c) as [[[t sv] kv]|];
    [|injection E as <-; apply unchangedBelow_refl].
  destruct t; try (injection E as <-; apply unchangedBelow_refl).
  destruct (self c hc) as [[node hc1]| |] eqn:E1; try discriminate.
  simpl in E. unfold JS.push in E.
  destruct (hc1 !! children) as [[items| | | |]|]; try discriminate.
  injection E as <-.
  eapply unchangedBelow_trans; [eapply Hself; eauto|].
  now apply unchangedBelow_insert.
Qed.

Lemma flatten_frame fuel :
  forall n v (h : list JS.Obj) r h',
    (n <= length h)%nat ->
    JS.styleNodeFromYogaNode fuel v h = JS.Done (r, h') ->
    unchangedBelow n h h'.
Proof.
  induction fuel as [|f IH]; intros n v h r h' Hn E; [discriminate|].
  simpl in E.
  destruct (JS.propsAt (h ++ [JS.OArray []]) v) as [[sv kids]|];
    [|discriminate].
  destruct (JS.Children_forEach f kids
              (JS.pushNode (JS.styleNodeFromYogaNode f) (length h))
              (h ++ [JS.OArray []])) as [h2| |] eqn:E2; try discriminate.
  simpl in E.
  destruct (JS.propsAt h2 v) as [[sv2 kids2]|]; [|discriminate].
  injection E as <- <-.
  assert (H1 : unchangedBelow n h (h ++ [JS.OArray []]))
    by now apply unchangedBelow_alloc.
  assert (H2 : unchangedBelow n (h ++ [JS.OArray []]) h2).
  { assert (Hcb : framedCallback n
              (JS.pushNode (JS.styleNodeFromYogaNode f) (length h)))
      by (apply pushNode_frame; [exact Hn | exact (IH n)]).
    unfold JS.Children_forEach in E2.
    destruct kids;
      try (injection E2 as <-; apply unchangedBelow_refl);
      (eapply (mapIntoArray_frame n _ Hcb f); [|exact E2];
       rewrite length_app; lia). }
  eapply unchangedBelow_trans; [exact H1|].
  eapply unchangedBelow_trans; [exact H2|].
  apply unchangedBelow_alloc. destruct H2. rewrite length_app in *. lia.
Qed.

Lemma flatten_keeps_store fuel v (h : list JS.Obj) r h' :
  JS.styleNodeFromYogaNode fuel v h = JS.Done (r, h') -> h `prefix_of` h'.
Proof.
  intros E. apply unchangedBelow_prefix.
  eapply flatten_frame; [|exact E]. lia.
Qed.

Lemma mixedStore_holds_mixedRoot :
  JS.reprElement mixedStore mixedRoot (JS.VRef 6%nat).
Proof.
  exists 6%nat, (JS.VRef 5%nat), (JS.VRef 4%nat).
  split; [reflexivity|]. split; [reflexivity|].
  split; [left; eexists; split; reflexivity|].
  apply repr_array.
  exists 4%nat,
    [JS.VRef 1%nat; JS.VString "text"; JS.VRef 2%nat; JS.VNull; JS.VRef 3%nat;
     JS.VRef 7%nat].
  split; [reflexivity|]. split; [reflexivity|].
  repeat constructor.
  - exists 1%nat, (JS.VRef 0%nat), JS.VUndefined.
    split; [reflexivity|]. split; [reflexivity|]. intros _.
    split; [left; eexists; split; reflexivity | reflexivity].
  - exists 2%nat, JS.VUndefined, (JS.VRef 1%nat).
    split; [reflexivity|]. split; [reflexivity|]. discriminate.
  - exists 3%nat, JS.VUndefined, JS.VUndefined.
    split; [reflexivity|]. split; [reflexivity|]. discriminate.
  - exists 7%nat, JS.VUndefined, JS.VUndefined.
    split; [reflexivity|]. split; [reflexivity|]. intros _.
    split; [right; split; reflexivity | reflexivity].
Defined.
(** ** What a run of the flattener leaves in the store *)

Lemma childSequence_recognized kids :
  omap recognized (childSequence kids) = omap recognized (leaves kids).
Proof. destruct kids; reflexivity. Qed.

Lemma omap_recognized_flat_map items :
  omap recognized (flat_map leaves items) =
  flat_map (fun c => omap recognized (leaves c)) items.
Proof.
  induction items as [|c l IH]; simpl; [reflexivity|].
  now rewrite omap_app, IH.
Qed.

Lemma forEach_walk f kids kv h arr hc acc :
  (JS.size kids <= f)%nat ->
  JS.repr h kids kv ->
  JS.filling h arr hc acc ->
  exists h2,
    JS.Children_forEach f kv
      (JS.pushNode (JS.styleNodeFromYogaNode f) arr) hc = JS.Done h2 /\
    JS.filling h arr h2 (Children_forEach kids pushNode acc) /\
    (kids = RNull \/ kids = RUndefined ->
     h2 = hc) /\
    (kids <> RNull -> kids <> RUndefined ->
     JS.mapIntoArray (JS.pushNode (JS.styleNodeFromYogaNode f) arr) f kv hc =
       JS.Done h2).
Proof.
  intros Hf Hk Hfill.
  assert (Hgo : exists h2,
    JS.mapIntoArray (JS.pushNode (JS.styleNodeFromYogaNode f) arr)
      f kv hc = JS.Done h2 /\
    JS.filling h arr h2 (mapIntoArray pushNode kids acc)).
  { eapply walk_correct; eauto. }
  destruct kids; simpl in Hk.
  1,2: subst kv; exists hc;
    (split; [reflexivity|]); (split; [exact Hfill|]);
    (split; [reflexivity | intros; congruence]).
  all: destruct Hgo as (h2 & E & Hfill2); exists h2.
  all: assert (Hsame : JS.Children_forEach f kv
         (JS.pushNode (JS.styleNodeFromYogaNode f) arr) hc =
       JS.mapIntoArray (JS.pushNode (JS.styleNodeFromYogaNode f) arr) f kv hc)
    by first
      [ subst kv; reflexivity
      | destruct Hk as (l' & -> & _); reflexivity
      | destruct Hk as (l' & vs & -> & _); reflexivity
      | destruct e; destruct Hk as (l' & sv' & kv' & -> & _); reflexivity ].
  all: rewrite Hsame; (split; [exact E|]); (split; [exact Hfill2|]);
    (split; [intros [?|?]; discriminate | intros _ _; exact E]).
Qed.

Lemma pushedNodes_array items :
  pushedNodes (RArray items) = list_sum (map pushedNodes items).
Proof.
  unfold pushedNodes. simpl leaves.
  induction items as [|c l IH]; simpl; [reflexivity|].
  rewrite omap_app, map_app, flat_map_app, length_app. now rewrite IH.
Qed.

Lemma eachIndex_cost rest :
  Forall walkCost rest ->
  forall fuelF f k h arr l done_vs rest_vs hc acc hc',
    h !! l = Some (JS.OArray (done_vs ++ rest_vs)) ->
    Forall2 (JS.repr h) rest rest_vs ->
    (length rest < k)%nat ->
    (list_sum (map (fun c => S (JS.size c)) rest) <= f)%nat ->
    (list_sum (map (fun c => S (JS.size c)) rest) <= fuelF)%nat ->
    JS.filling h arr hc acc ->
    JS.eachIndex
      (JS.mapIntoArray
         (JS.pushNode (JS.styleNodeFromYogaNode fuelF) arr) f)
      l k (length done_vs) hc = JS.Done hc' ->
    length hc' = (length hc + 2 * list_sum (map pushedNodes rest))%nat.
Proof.
  induction 1 as [|c rest Hc _ IH];
    intros fuelF f k h arr l done_vs rest_vs hc acc hc' Hl Hall Hk Hf HF Hfill E;
    (assert (Hl' : hc !! l = Some (JS.OArray (done_vs ++ rest_vs)))
      by (eapply prefix_lookup_Some; [exact Hl | apply Hfill]));
    inversion Hall as [|? v ? vs' Hcv Hrest]; subst;
    (destruct k as [|k]; [simpl in Hk; lia|]).
  - simpl in E. rewrite Hl', app_nil_r, lookup_ge_None_2 in E by lia.
    injection E as <-. simpl. lia.
  - simpl in Hf, HF, Hk.
    simpl in E. rewrite Hl' in E.
    rewrite list_lookup_middle in E by reflexivity.
    destruct (walk_correct c f fuelF h arr hc acc v) as (hc1 & E1 & Hfill1);
      [lia | lia | assumption | assumption |].
    rewrite E1 in E. simpl in E.
    pose proof (Hc f fuelF h arr hc acc v hc1 ltac:(lia) ltac:(lia)
                  Hcv Hfill E1) as Hlen1.
    specialize (IH fuelF f k h arr l (done_vs ++ [v]) vs' hc1
                  (mapIntoArray pushNode c acc) hc').
    rewrite length_app, Nat.add_1_r, <- app_assoc in IH.
    rewrite IH; auto; try lia. simpl. lia.
Qed.

Lemma walkCost_array items : Forall walkCost items -> walkCost (RArray items).
Proof.
  intros H fuelM fuelF h arr hc acc v hc' HfM HfF Hr Hfill E.
  destruct fuelM as [|f]; [simpl in HfM; lia|].
  apply repr_array in Hr as (l & vs & -> & Hl & Hall).
  assert (Hl' : hc !! l = Some (JS.OArray vs))
    by (eapply prefix_lookup_Some; [exact Hl | apply Hfill]).
  rewrite size_array in HfM, HfF.
  simpl in E. rewrite Hl' in E.
  rewrite pushedNodes_array.
  assert (length items <= list_sum (map (fun c => S (JS.size c)) items))%nat.
  { clear. induction items; simpl; lia. }
  apply (eachIndex_cost items H fuelF f f h arr l [] vs hc acc hc');
    auto; lia.
Qed.

Lemma walkCost_element e : flattenCost e -> walkCost (RElem e).
Proof.
  intros IHe fuelM fuelF h arr hc acc v hc' HfM HfF Hr Hfill E.
  destruct fuelM as [|f]; [simpl in HfM; lia|].
  change (JS.size (RElem e)) with (S (JS.sizeElement e)) in HfM, HfF.
  pose proof (repr_prefix (RElem e) h hc v ltac:(apply Hfill) Hr) as Hr'.
  unfold pushedNodes. simpl leaves. simpl omap.
  destruct e as [t s kids].
  destruct Hr' as (l & sv & kv & -> & Hl & Himp).
  simpl JS.mapIntoArray in E. rewrite Hl in E.
  unfold JS.pushNode at 1 in E. simpl JS.elementAt in E. rewrite Hl in E.
  simpl type.
  destruct (decide (t = NodeT)) as [->|Ht].
  - assert (Hr2 : JS.reprElement hc (Element NodeT s kids) (JS.VRef l))
      by (destruct (Himp eq_refl); exists l, sv, kv; auto).
    destruct (flatten_correct (Element NodeT s kids) fuelF hc (JS.VRef l)
                ltac:(lia) Hr2) as (r & hc1 & E1 & Hp1 & _ & Hn1).
    rewrite E1 in E. simpl in E.
    destruct (filling_push h arr hc hc1 acc _ r Hfill Hp1 Hn1)
      as (hc2 & E2 & _).
    rewrite E2 in E. injection E as <-.
    unfold JS.push in E2.
    destruct (hc1 !! arr) as [[vs| | | |]|]; try discriminate.
    injection E2 as <-. rewrite length_insert.
    destruct (IHe fuelF hc (JS.VRef l) r hc1 ltac:(lia) Hr2 E1) as (-> & _).
    simpl. rewrite app_nil_r. reflexivity.
  - assert (hc' = hc) as ->.
    { destruct t; try congruence; now injection E as <-. }
    simpl. lia.
Qed.

Lemma flattenCost_element t s kids :
  walkCost kids -> flattenCost (Element t s kids).
Proof.
  intros IHk fuel h v r h' Hf Hr E. simpl in Hf.
  destruct fuel as [|f]; [lia|].
  destruct Hr as (l & sv & kv & -> & Hl & Hs & Hk).
  simpl JS.styleNodeFromYogaNode in E.
  rewrite (lookup_app_l_Some _ _ _ _ Hl) in E.
  assert (Hfill0 : JS.filling h (length h) (h ++ [JS.OArray []]) []).
  { split; [now apply prefix_app_r|]. split; [lia|].
    exists []. split; [|constructor].
    now rewrite lookup_app_r, Nat.sub_diag by lia. }
  destruct (forEach_walk f kids kv h (length h) _ [] ltac:(lia) Hk Hfill0)
    as (h2 & E2 & Hfill2 & Hnone & Hsome).
  rewrite E2 in E. simpl in E.
  destruct Hfill2 as (Hp2 & _).
  rewrite (prefix_lookup_Some _ _ _ _ Hl Hp2) in E.
  injection E as <- <-.
  assert (Hlen : length h2 =
            (length (h ++ [JS.OArray []]) +
             2 * length (flat_map stylesOf
                           (map styleNodeFromYogaNode
                              (omap recognized (childSequence kids)))))%nat).
  { assert (Hcase : kids = RNull \/ kids = RUndefined \/
                     (kids <> RNull /\ kids <> RUndefined))
      by (destruct kids; auto; right; right; split; discriminate).
    destruct Hcase as [-> | [-> | [Hn1 Hn2]]];
      [rewrite Hnone by auto; simpl; lia
      |rewrite Hnone by auto; simpl; lia|].
    rewrite childSequence_recognized.
    apply (IHk f f h (length h) (h ++ [JS.OArray []]) [] kv h2);
      auto; lia. }
  rewrite styleNodeFromYogaNode_eq, Children_forEach_pushNode.
  rewrite !length_app in *. simpl in *.
  split; [lia|]. split; [lia|].
  intros l0 t0 sv0 kv0 [= <-] Hl0. rewrite Hl in Hl0. injection Hl0 as <- <- <-.
  now rewrite lookup_app_r, Nat.sub_diag by lia.
Qed.

Lemma walkCost_correct n : walkCost n.
Proof.
  induction n using ReactNode_ind' with (Q := flattenCost);
    try (intros fuelM fuelF h arr hc acc v hc' HfM HfF Hr Hfill E;
         destruct fuelM as [|f]; [simpl in HfM; lia|];
         simpl in Hr; subst; injection E as <-;
         unfold pushedNodes; simpl; lia).
  - intros fuelM fuelF h arr hc acc v hc' HfM HfF Hr Hfill E.
    destruct fuelM as [|f]; [simpl in HfM; lia|].
    destruct Hr as (l & -> & Hl).
    assert (Hl' : hc !! l = Some JS.OPortal)
      by (eapply prefix_lookup_Some; [exact Hl | apply Hfill]).
    simpl in E. rewrite Hl' in E. unfold JS.pushNode in E. simpl in E.
    rewrite Hl' in E. injection E as <-. unfold pushedNodes. simpl. lia.
  - now apply walkCost_array.
  - now apply walkCost_element.
  - now apply flattenCost_element.
Qed.

Lemma flattenCost_correct e : flattenCost e.
Proof.
  destruct e as [t s kids]. apply flattenCost_element, walkCost_correct.
Qed.


(** * The claims *)

(** ** The tree flattener *)

(** C1: the flattened node keeps the style of the input, and its
    children are the flattened recognized children of the input, in
    their order; their number is the number of recognized children. *)
Theorem flattener_projects_recognized_children (yogaNode : ReactElement) :
  sn_style (styleNodeFromYogaNode yogaNode) = props_style yogaNode /\
  sn_children (styleNodeFromYogaNode yogaNode) =
    map styleNodeFromYogaNode (recognizedChildren yogaNode) /\
  length (sn_children (styleNodeFromYogaNode yogaNode)) =
    length (List.filter isRecognized (childSequence (props_children yogaNode))).
Proof.
  destruct yogaNode as [t style kids].
  rewrite styleNodeFromYogaNode_eq, Children_forEach_pushNode.
  unfold recognizedChildren. simpl.
  repeat split.
  now rewrite length_map, length_omap_recognized.
Qed.

(** C4: a root with style width 350, height 350, padding 20 and one
    [Node] child of style flex 1 without children flattens to the tree
    given in the specification. *)
Theorem flatten_default_tree (t : ElementType) (rootKids innerKids : ReactNode) :
  childSequence rootKids =
    [RElem (Element NodeT [("flex", SNum 1)] innerKids)] ->
  childSequence innerKids = [] ->
  styleNodeFromYogaNode
    (Element t
       [("width", SNum 350); ("height", SNum 350); ("padding", SNum 20)]
       rootKids) =
  mkStyleNode
    [("width", SNum 350); ("height", SNum 350); ("padding", SNum 20)]
    [mkStyleNode [("flex", SNum 1)] []].
Proof.
  intros Hroot Hinner.
  rewrite styleNodeFromYogaNode_eq, Children_forEach_pushNode, Hroot.
  simpl. rewrite Children_forEach_pushNode, Hinner. reflexivity.
Qed.

Lemma flatten_default_tree_witness :
  childSequence (RElem defaultInner) =
    [RElem (Element NodeT [("flex", SNum 1)] RUndefined)] /\
  childSequence RUndefined = [] /\
  styleNodeFromYogaNode defaultRoot =
  mkStyleNode
    [("width", SNum 350); ("height", SNum 350); ("padding", SNum 20)]
    [mkStyleNode [("flex", SNum 1)] []].
Proof.
  split; [reflexivity|]. split; [reflexivity|].
  apply (flatten_default_tree NodeT (RElem defaultInner) RUndefined);
    reflexivity.
Defined.

(** C5: whatever the store and the argument, a run of the flattener
    that returns leaves every object that was in the store as it was.
    Run twice on the same stored tree, it returns two distinct new
    objects that read back as the same tree, the flattened input, and
    the input still reads as the same tree; both objects hold the very
    style value of the input, each next to a children array of its
    own. *)
Theorem flattener_deterministic_no_side_effect :
  (forall (fuel : nat) (v : JS.Val) (h : list JS.Obj) r h',
     JS.styleNodeFromYogaNode fuel v h = JS.Done (r, h') ->
     h `prefix_of` h') /\
  (forall (e : ReactElement) (h : list JS.Obj) (v : JS.Val)
          (fuel1 fuel2 : nat),
     JS.reprElement h e v ->
     (JS.sizeElement e <= fuel1)%nat ->
     (JS.sizeElement e <= fuel2)%nat ->
     exists r1 h1 r2 h2,
       JS.styleNodeFromYogaNode fuel1 v h = JS.Done (JS.VRef r1, h1) /\
       JS.styleNodeFromYogaNode fuel2 v h1 = JS.Done (JS.VRef r2, h2) /\
       h `prefix_of` h1 /\ h1 `prefix_of` h2 /\
       JS.reprElement h2 e v /\
       r1 <> r2 /\
       JS.reprStyleNode (length h) h2 (styleNodeFromYogaNode e) (JS.VRef r1) /\
       JS.reprStyleNode (length h) h2 (styleNodeFromYogaNode e) (JS.VRef r2) /\
       (forall lo1 lo2 n1 n2,
          JS.reprStyleNode lo1 h2 n1 (JS.VRef r1) ->
          JS.reprStyleNode lo2 h2 n2 (JS.VRef r2) -> n1 = n2) /\
       (forall l t sv kv,
          v = JS.VRef l -> h !! l = Some (JS.OElement t sv kv) ->
          exists a1 a2,
            h2 !! r1 = Some (JS.OStyleNode sv (JS.VRef a1)) /\
            h2 !! r2 = Some (JS.OStyleNode sv (JS.VRef a2)) /\
            a1 <> a2)).
Proof.
  split; [intros fuel v h r h'; apply flatten_keeps_store|].
  intros e h v fuel1 fuel2 Hr Hf1 Hf2.
  destruct (flatten_correct e fuel1 h v Hf1 Hr) as (r1 & h1 & E1 & Hp1 & Hlt1 & Hn1).
  pose proof (reprElement_prefix e h h1 v Hp1 Hr) as Hr1.
  destruct (flatten_correct e fuel2 h1 v Hf2 Hr1) as (r2 & h2 & E2 & Hp2 & Hlt2 & Hn2).
  assert (Hn1' : JS.reprStyleNode (length h) h2 (styleNodeFromYogaNode e) (JS.VRef r1)).
  { eapply reprStyleNode_keeps; [apply keepsFrom_prefix; exact Hp2 | exact Hn1]. }
  assert (Hn2' : JS.reprStyleNode (length h) h2 (styleNodeFromYogaNode e) (JS.VRef r2)).
  { eapply reprStyleNode_weaken; [|exact Hn2]. now apply prefix_length. }
  exists r1, h1, r2, h2.
  repeat (split; [assumption|]).
  split; [eapply reprElement_prefix; eauto|].
  split. { apply reprStyleNode_fresh in Hn2. lia. }
  repeat (split; [assumption|]).
  split.
  { intros lo1 lo2 n1 n2 G1 G2.
    rewrite (reprStyleNode_functional _ _ _ _ _ _ G1 Hn1').
    rewrite (reprStyleNode_functional _ _ _ _ _ _ G2 Hn2').
    reflexivity. }
  intros l t sv kv -> Hl.
  destruct (flattenCost_correct e fuel1 h _ r1 h1 Hf1 Hr E1) as (_ & Hl1 & Hs1).
  destruct (flattenCost_correct e fuel2 h1 _ r2 h2 Hf2 Hr1 E2) as (_ & _ & Hs2).
  exists (length h), (length h1).
  split. { eapply prefix_lookup_Some; [|exact Hp2]. eapply Hs1; eauto. }
  split. { eapply Hs2; [reflexivity|]. eapply prefix_lookup_Some; eauto. }
  apply reprStyleNode_fresh in Hn1. lia.
Qed.

Lemma flattener_deterministic_no_side_effect_witness :
  JS.reprElement mixedStore mixedRoot (JS.VRef 6%nat) /\
  (JS.sizeElement mixedRoot <= 30)%nat /\
  exists r1 h1 r2 h2,
    JS.styleNodeFromYogaNode 30 (JS.VRef 6%nat) mixedStore =
      JS.Done (JS.VRef r1, h1) /\
    JS.styleNodeFromYogaNode 30 (JS.VRef 6%nat) h1 = JS.Done (JS.VRef r2, h2) /\
    mixedStore `prefix_of` h2 /\ r1 <> r2 /\
    JS.reprStyleNode (length mixedStore) h2
      (mkStyleNode [("width", SNum 100)]
         [mkStyleNode [("flex", SNum 1)] []; mkStyleNode [] []])
      (JS.VRef r2).
Proof.
  assert (Hf : (JS.sizeElement mixedRoot <= 30)%nat) by (simpl; lia).
  split; [exact mixedStore_holds_mixedRoot|]. split; [exact Hf|].
  destruct (proj2 flattener_deterministic_no_side_effect mixedRoot mixedStore
              (JS.VRef 6%nat) 30%nat 30%nat mixedStore_holds_mixedRoot Hf Hf)
    as (r1 & h1 & r2 & h2 & E1 & E2 & Hp1 & Hp2 & _ & Hne & _ & Hn2 & _).
  exists r1, h1, r2, h2.
  repeat (split; [assumption|]).
  split; [now transitivity h1|]. split; [exact Hne | exact Hn2].
Defined.

(** C6, as the code has it: for every finite tree of React nodes held
    in the store, with fuel of the size of the tree or more, the
    flattener returns (it neither throws nor runs out of fuel) an
    object that stands for the flattened tree; and an empty children
    sequence gives an empty children list. *)
Theorem flattener_total (e : ReactElement) (h : list JS.Obj) (v : JS.Val)
    (fuel : nat) :
  JS.reprElement h e v ->
  (JS.sizeElement e <= fuel)%nat ->
  (exists r h',
     JS.styleNodeFromYogaNode fuel v h = JS.Done (JS.VRef r, h') /\
     JS.reprStyleNode (length h) h' (styleNodeFromYogaNode e) (JS.VRef r)) /\
  (childSequence (props_children e) = [] ->
   sn_children (styleNodeFromYogaNode e) = []).
Proof.
  intros Hr Hf. split.
  - destruct (flatten_correct e fuel h v Hf Hr) as (r & h' & E & _ & _ & Hn).
    eauto.
  - apply flatten_no_children.
Qed.

Lemma flattener_total_witness :
  JS.reprElement mixedStore mixedRoot (JS.VRef 6%nat) /\
  (JS.sizeElement mixedRoot <= 30)%nat /\
  exists r h',
    JS.styleNodeFromYogaNode 30 (JS.VRef 6%nat) mixedStore =
      JS.Done (JS.VRef r, h').
Proof.
  assert (Hf : (JS.sizeElement mixedRoot <= 30)%nat) by (simpl; lia).
  split; [exact mixedStore_holds_mixedRoot|]. split; [exact Hf|].
  destruct (proj1 (flattener_total mixedRoot mixedStore (JS.VRef 6%nat) 30%nat
                     mixedStore_holds_mixedRoot Hf))
    as (r & h' & E & _).
  exists r, h'. exact E.
Defined.

(** C6, as stated, fails: a [Node] element whose children array holds a
    [Node] element and then a style object is flattened by no amount of
    fuel; from fuel 7 on the run throws React's error. *)
Lemma flattener_throws_on_object_child :
  JS.elementAt brokenStore (JS.VRef 2%nat) =
    Some (NodeT, JS.VRef 0%nat, JS.VRef 3%nat) /\
  brokenStore !! 3%nat = Some (JS.OArray [JS.VRef 1%nat; JS.VRef 0%nat]) /\
  brokenStore !! 0%nat = Some (JS.OStyle [("flex", SNum 1)]) /\
  (forall fuel,
     (7 <= fuel)%nat ->
     JS.styleNodeFromYogaNode fuel (JS.VRef 2%nat) brokenStore =
       JS.Thrown "Objects are not valid as a React child") /\
  (forall fuel r h',
     JS.styleNodeFromYogaNode fuel (JS.VRef 2%nat) brokenStore <>
       JS.Done (r, h')).
Proof.
  assert (Hthrow : forall fuel,
            (7 <= fuel)%nat ->
            JS.styleNodeFromYogaNode fuel (JS.VRef 2%nat) brokenStore =
              JS.Thrown "Objects are not valid as a React child").
  { intros fuel Hf.
    assert (Hitems : Forall2 (JS.repr brokenStore)
                       [RElem defaultInner] [JS.VRef 1%nat]).
    { constructor; [|constructor].
      exists 1%nat, (JS.VRef 0%nat), JS.VUndefined.
      split; [reflexivity|]. split; [reflexivity|]. intros _.
      split; [left; eexists; split; reflexivity | reflexivity]. }
    apply (object_child_throws brokenStore 2 3 0 NodeT (JS.VRef 0%nat)
             (JS.OStyle [("flex", SNum 1)])
             [RElem defaultInner] [JS.VRef 1%nat] [] fuel
             eq_refl eq_refl Hitems eq_refl I).
    simpl. lia. }
  repeat (split; [reflexivity|]). split; [exact Hthrow|].
  intros fuel r h'.
  destruct (le_lt_dec 7 fuel) as [Hf|Hf]; [now rewrite Hthrow|].
  do 7 (destruct fuel as [|fuel]; [vm_compute; discriminate|]). lia.
Qed.

(** ** The Layout wrapper *)

Lemma Layout_count_not_one children config :
  Children_count children <> 1%nat -> Layout children config = Ret ONull.
Proof.
  intros H. unfold Layout.
  destruct (Nat.eqb_spec (Children_count children) 1); [contradiction|].
  reflexivity.
Qed.

Lemma Layout_other_element e config :
  type e <> NodeT -> Layout (RElem e) config = Ret ONull.
Proof.
  intros H. unfold Layout. simpl.
  destruct (decide (type e = NodeT)); [contradiction | reflexivity].
Qed.

Lemma Layout_cases children config :
  Layout children config =
  match children with
  | RElem node =>
      if decide (type node = NodeT) then
        Ret (OSuspense ONull
               (OLazyYogaViewer (styleNodeFromYogaNode node)
                  (config_useWebDefaults config)))
      else Ret ONull
  | _ =>
      if (Children_count children =? 1)%nat then
        Throw "React.Children.only expected to receive a single React element child."
      else Ret ONull
  end.
Proof.
  unfold Layout.
  destruct children; try reflexivity;
    destruct (Children_count _ =? 1)%nat; reflexivity.
Qed.

Lemma Layout_single_non_element_throws children config :
  Children_count children = 1%nat ->
  isValidElement children = false ->
  Layout children config =
    Throw "React.Children.only expected to receive a single React element child.".
Proof.
  intros Hc Hv. rewrite Layout_cases.
  destruct children; try discriminate Hv; now rewrite Hc.
Qed.

Lemma Layout_array_of_one_Node_throws node config :
  Layout (RArray [RElem node]) config =
    Throw "React.Children.only expected to receive a single React element child.".
Proof. reflexivity. Qed.

(** C2, at a single text child: the count is one, the child is not an
    element, and [Layout] throws from [React.Children.only] instead of
    returning [null]. *)
Theorem Layout_text_child_throws :
  Children_count (RString "hello") = 1%nat /\
  isValidElement (RString "hello") = false /\
  Layout (RString "hello") None =
    Throw "React.Children.only expected to receive a single React element child.".
Proof. repeat split. Qed.

Lemma Layout_Node_element (node : ReactElement)
    (config : option LayoutConfig) :
  type node = NodeT ->
  Layout (RElem node) config =
    Ret (OSuspense ONull
           (OLazyYogaViewer (styleNodeFromYogaNode node)
              (match config with
               | Some c => useWebDefaults c
               | None => None
               end))).
Proof.
  intros H. unfold Layout. simpl.
  destruct (decide (type node = NodeT)); [|contradiction].
  destruct config; reflexivity.
Qed.

Lemma Layout_forwards_flag :
  viewerCalls <$> Layout (RElem defaultRoot)
                    (Some {| useWebDefaults := Some true |}) =
    Ret [(styleNodeFromYogaNode defaultRoot, Some true)] /\
  viewerCalls <$> Layout (RElem defaultRoot)
                    (Some {| useWebDefaults := Some false |}) =
    Ret [(styleNodeFromYogaNode defaultRoot, Some false)] /\
  viewerCalls <$> Layout (RElem defaultRoot)
                    (Some {| useWebDefaults := None |}) =
    Ret [(styleNodeFromYogaNode defaultRoot, None)] /\
  viewerCalls <$> Layout (RElem defaultRoot) None =
    Ret [(styleNodeFromYogaNode defaultRoot, None)].
Proof. repeat split. Qed.

(** C3, at an array that holds one [Node] element: React counts one
    child, the child is a [Node] element, and [Layout] throws from
    [React.Children.only] instead of rendering the viewer. *)
Theorem Layout_array_of_one_Node_child_throws :
  Children_count (RArray [RElem defaultInner]) = 1%nat /\
  childSequence (RArray [RElem defaultInner]) = [RElem defaultInner] /\
  type defaultInner = NodeT /\
  Layout (RArray [RElem defaultInner])
    (Some {| useWebDefaults := Some false |}) =
    Throw "React.Children.only expected to receive a single React element child.".
Proof. repeat split. Qed.

(** ** The editor host *)

(** C7: [getCode] returns the text content of the code region, and
    throws exactly when the lookup of the region yields nothing. *)
Theorem getCode_text_or_throws (env : Env) :
  (forall codeElem,
     codeRegion env = Some codeElem ->
     getCode env = Ret (textContent codeElem)) /\
  (codeRegion env = None <-> exists msg, getCode env = Throw msg).
Proof.
  rewrite getCode_spec. destruct (codeRegion env) as [el|].
  - split; [intros ? [= <-]; reflexivity|].
    split; [discriminate | intros [msg H]; discriminate].
  - split; [discriminate|]. split; eauto.
Qed.

Lemma getCode_text_or_throws_witness :
  codeRegion (sampleEnv 120) =
    Some (DElement ["prism-code"; "playgroundEditor"] 120
            [DElement ["token-line"] 20 [DText "<Layout>"];
             DElement ["token-line"] 20 [DText "</Layout>"]]) /\
  getCode (sampleEnv 120) = Ret "<Layout></Layout>".
Proof.
  split; [reflexivity|].
  exact (proj1 (getCode_text_or_throws (sampleEnv 120)) _ eq_refl).
Defined.

(** C8, as the code has it: while the [autoFocus] prop keeps its value,
    the focus effect acts in one step only, the first mount of the
    preview, where it runs [focusAttempt]; the attempt selects and
    collapses when the flag is set, the code region is found with a
    height and a selection exists. *)
Theorem autofocus_only_at_first_preview (p : Props) (env0 : Env)
    (trace : list (Event * Env)) :
  constAutoFocus (autoFocus p) trace ->
  (focusCount (session p env0 trace).2 <= 1)%nat /\
  (noPreviewMounted trace ->
   (session p env0 trace).2 = replicate (S (length trace)) []) /\
  (forall pre env post,
     trace = pre ++ (PreviewMounted, env) :: post ->
     noPreviewMounted pre ->
     (session p env0 trace).2 =
       replicate (S (length pre)) [] ++
       focusAttempt (autoFocus p) env :: replicate (length post) []) /\
  (forall env codeElem,
     autoFocus p = Some true ->
     codeRegion env = Some codeElem ->
     dom_clientHeight codeElem <> 0 ->
     window_getSelection env = true ->
     focusAttempt (autoFocus p) env =
       [SelectAllChildren codeElem; CollapseToStart]) /\
  (forall env,
     focusAttempt (autoFocus p) env <> [] ->
     autoFocus p = Some true /\
     window_getSelection env = true /\
     exists codeElem,
       codeRegion env = Some codeElem /\ dom_clientHeight codeElem <> 0).
Proof.
  intros Hc. split; [|split; [|split; [|split]]].
  - destruct (trace_split trace) as [Hn | (pre & env & post & -> & Hn)].
    + rewrite session_log_quiet by assumption.
      rewrite focusCount_replicate. lia.
    + rewrite session_log_first_preview by assumption.
      rewrite focusCount_app, focusCount_replicate.
      change (focusAttempt (autoFocus p) env :: replicate (length post) [])
        with ([focusAttempt (autoFocus p) env] ++ replicate (length post) []).
      rewrite focusCount_app, focusCount_replicate.
      pose proof (focusCount_one (focusAttempt (autoFocus p) env)). lia.
  - intros Hn. now apply session_log_quiet.
  - intros pre env post -> Hn. now apply session_log_first_preview.
  - intros env codeElem Ha Hr Hh Hs. unfold focusAttempt.
    rewrite Ha, Hr, Hs. simpl.
    destruct (Z.eqb_spec (dom_clientHeight codeElem) 0); [contradiction|].
    reflexivity.
  - intros env. unfold focusAttempt.
    destruct (autoFocus p) as [[|]|]; simpl; try congruence.
    destruct (codeRegion env) as [codeElem|]; [|congruence].
    destruct (Z.eqb_spec (dom_clientHeight codeElem) 0); simpl; [congruence|].
    destruct (window_getSelection env); [|congruence].
    eauto.
Qed.

Lemma autofocus_only_at_first_preview_witness :
  constAutoFocus (Some true)
    [(EditorChange "<Layout />", sampleEnv 120);
     (PreviewMounted, sampleEnv 120);
     (ParentRender (sampleProps (Some true)), sampleEnv 120)] /\
  (focusCount
     (session (sampleProps (Some true)) (sampleEnv 120)
        [(EditorChange "<Layout />", sampleEnv 120);
         (PreviewMounted, sampleEnv 120);
         (ParentRender (sampleProps (Some true)), sampleEnv 120)]).2 <= 1)%nat.
Proof.
  assert (H : constAutoFocus (Some true)
    [(EditorChange "<Layout />", sampleEnv 120);
     (PreviewMounted, sampleEnv 120);
     (ParentRender (sampleProps (Some true)), sampleEnv 120)]).
  { repeat constructor. }
  split; [exact H|].
  exact (proj1 (autofocus_only_at_first_preview (sampleProps (Some true))
                  (sampleEnv 120) _ H)).
Defined.

(** C8, as stated, fails: with the flag set throughout, a code region
    without height gets no selection at all; and when the flag is
    dropped and set again after the preview has loaded, the selection is
    made a second time. *)
Lemma autofocus_count_not_one :
  focusCount
    (session (sampleProps (Some true)) (sampleEnv 0)
       [(PreviewMounted, sampleEnv 0)]).2 = 0%nat /\
  focusCount
    (session (sampleProps (Some true)) (sampleEnv 120)
       [(PreviewMounted, sampleEnv 120);
        (ParentRender (sampleProps (Some false)), sampleEnv 120);
        (ParentRender (sampleProps (Some true)), sampleEnv 120)]).2 = 2%nat.
Proof. split; vm_compute; reflexivity. Qed.

Lemma session_scrollbar_nonneg (p : Props) (env0 : Env)
    (trace : list (Event * Env)) :
  Forall envBoxModel (env0 :: map snd trace) ->
  toolbar_paddingRight (view (session p env0 trace).1) =
    pretty (scrollbarWidth (hooks (session p env0 trace).1)) +:+ "px" /\
  0 <= scrollbarWidth (hooks (session p env0 trace).1).
Proof.
  intros Hall. inversion Hall as [|? ? Henv0 Hrest]; subst.
  rewrite session_eq. simpl fst. split.
  - rewrite (run_viewInSync trace _ (mount_viewInSync p env0)). reflexivity.
  - apply run_scrollbar_nonneg; [|exact Hrest].
    unfold mount. apply rerender_scrollbar_nonneg; [simpl; lia | exact Henv0].
Qed.




(** C10: the held text starts as the [code] prop, or the default
    snippet without one, and afterwards is the text of the last editor
    change; a parent render with other props leaves it as it is.  The
    provider is always given the held text. *)
Theorem liveCode_changes_only_by_editor (p : Props) (env0 : Env)
    (trace : list (Event * Env)) :
  liveCode (hooks (mount p env0).1) = default defaultCode (code p) /\
  liveCode (hooks (session p env0 trace).1) =
    lastChange (default defaultCode (code p)) trace /\
  provider_code (view (session p env0 trace).1) =
    liveCode (hooks (session p env0 trace).1) /\
  (forall inst p' env,
     liveCode (hooks (step inst (ParentRender p') env).1) =
     liveCode (hooks inst)).
Proof.
  assert (Hm : liveCode (hooks (mount p env0).1) = default defaultCode (code p)).
  { unfold mount.
    now destruct (rerender_spec p env0 (initialHooks p)) as (_ & _ & -> & _). }
  split; [exact Hm|]. rewrite session_eq. simpl fst.
  split; [now rewrite run_liveCode, Hm|].
  split.
  - rewrite (run_viewInSync trace _ (mount_viewInSync p env0)). reflexivity.
  - intros inst p' env. apply (step_liveCode inst (ParentRender p') env).
Qed.

(** * Further properties of the code *)

(** ** The tree flattener *)

Lemma flattened_styles_sublist n :
  flat_map stylesOf (map styleNodeFromYogaNode (omap recognized (leaves n)))
    `sublist_of` nodeStyles n.
Proof.
  induction n using ReactNode_ind'
    with (Q := fun e => stylesOf (styleNodeFromYogaNode e)
                          `sublist_of` props_style e :: nodeStyles (props_children e));
    try (simpl; exact (@sublist_nil _)).
  - simpl leaves. simpl nodeStyles.
    induction H as [|c l Hc _ IH]; simpl; [constructor|].
    rewrite omap_app, map_app, flat_map_app.
    now apply sublist_app.
  - destruct e as [t s kids]. simpl leaves. simpl omap. simpl nodeStyles.
    simpl in IHn.
    destruct (decide (t = NodeT)) as [->|Ht]; simpl.
    + rewrite app_nil_r. exact IHn.
    + apply sublist_nil_l.
  - rewrite styleNodeFromYogaNode_eq, Children_forEach_pushNode,
      childSequence_recognized.
    simpl. constructor. exact IHn.
Qed.

(** X1: the styles of the flattened tree are, in order, a subsequence of
    the root's style followed by the styles of the [Node] elements
    below it: no style is made up, repeated or moved; so the flattened
    tree has at most one node per [Node] element of the input. *)
Theorem flatten_styles_from_input (yogaNode : ReactElement) :
  stylesOf (styleNodeFromYogaNode yogaNode) `sublist_of`
    props_style yogaNode :: nodeStyles (props_children yogaNode) /\
  (length (stylesOf (styleNodeFromYogaNode yogaNode)) <=
   S (length (nodeStyles (props_children yogaNode))))%nat.
Proof.
  assert (H : stylesOf (styleNodeFromYogaNode yogaNode) `sublist_of`
                props_style yogaNode :: nodeStyles (props_children yogaNode)).
  { destruct yogaNode as [t s kids].
    rewrite styleNodeFromYogaNode_eq, Children_forEach_pushNode,
      childSequence_recognized.
    simpl. constructor. apply flattened_styles_sublist. }
  split; [exact H|]. apply sublist_length in H. exact H.
Qed.

Lemma flatten_array t s items :
  styleNodeFromYogaNode (Element t s (RArray items)) =
  mkStyleNode s
    (map styleNodeFromYogaNode (omap recognized (flat_map leaves items))).
Proof.
  now rewrite styleNodeFromYogaNode_eq, Children_forEach_pushNode.
Qed.

Lemma recognized_is_Node c e : recognized c = Some e -> c = RElem e /\ type e = NodeT.
Proof.
  destruct c; simpl; try discriminate.
  destruct (decide (type e0 = NodeT)); [|discriminate].
  intros [= <-]. auto.
Qed.

Lemma omap_recognized_elements l :
  Forall (fun e => type e = NodeT) l ->
  omap recognized (flat_map leaves (map RElem l)) = l.
Proof.
  induction 1 as [|e l He _ IH]; simpl; [reflexivity|].
  rewrite decide_True by exact He. now f_equal.
Qed.

Lemma omap_recognized_Node l :
  Forall (fun e => type e = NodeT) (omap recognized l).
Proof.
  induction l as [|c l IH]; simpl; [constructor|].
  destruct (recognized c) as [e|] eqn:E; [|exact IH].
  constructor; [|exact IH]. now apply recognized_is_Node in E.
Qed.

(** X2: only the recognized children matter: a node flattens as the node
    whose children are the plain array of its recognized children. *)
Theorem flatten_children_normal_form (t : ElementType) (s : FlexStyle)
    (kids : ReactNode) :
  styleNodeFromYogaNode (Element t s kids) =
  styleNodeFromYogaNode
    (Element t s (RArray (map RElem (recognizedChildren (Element t s kids))))).
Proof.
  rewrite flatten_array, omap_recognized_elements
    by apply omap_recognized_Node.
  now rewrite styleNodeFromYogaNode_eq, Children_forEach_pushNode.
Qed.

(** X3: a child element of another type than [Node] is skipped with all
    it contains: the [Node] elements inside a fragment or a [div] do not
    reach the flattened tree. *)
Theorem flatten_skips_wrapped_nodes (t : ElementType) (s : FlexStyle)
    (before after : list ReactNode) (wrapper : ReactElement) :
  type wrapper <> NodeT ->
  styleNodeFromYogaNode
    (Element t s (RArray (before ++ RElem wrapper :: after))) =
  styleNodeFromYogaNode (Element t s (RArray (before ++ after))).
Proof.
  intros Hw. rewrite !flatten_array, !flat_map_app, !omap_app. simpl.
  now rewrite decide_False by exact Hw.
Qed.

Lemma flatten_skips_wrapped_nodes_witness :
  type (Element FragmentT [] (RElem defaultInner)) <> NodeT /\
  styleNodeFromYogaNode
    (Element NodeT []
       (RArray ([RElem defaultInner] ++
                RElem (Element FragmentT [] (RElem defaultInner)) :: []))) =
  mkStyleNode [] [mkStyleNode [("flex", SNum 1)] []].
Proof.
  assert (H : type (Element FragmentT [] (RElem defaultInner)) <> NodeT)
    by discriminate.
  split; [exact H|].
  rewrite (flatten_skips_wrapped_nodes NodeT [] [RElem defaultInner] []
             (Element FragmentT [] (RElem defaultInner)) H).
  reflexivity.
Defined.

(** X4: an array among the children counts as its items: splicing a
    nested array into its parent array does not change the flattened
    tree. *)
Theorem flatten_splices_nested_arrays (t : ElementType) (s : FlexStyle)
    (before inner after : list ReactNode) :
  styleNodeFromYogaNode
    (Element t s (RArray (before ++ RArray inner :: after))) =
  styleNodeFromYogaNode (Element t s (RArray (before ++ inner ++ after))).
Proof.
  rewrite !flatten_array, !flat_map_app. reflexivity.
Qed.

(** X5: every flattened tree is the flattening of the [Node] tree of
    the same shape: flattening [asElement n] gives [n] back. *)
Theorem flatten_asElement (n : StyleNode) :
  styleNodeFromYogaNode (asElement n) = n.
Proof.
  induction n as [s kids IH] using StyleNode_ind'.
  simpl asElement. rewrite flatten_array. f_equal.
  rewrite <- (map_map asElement RElem), omap_recognized_elements.
  - rewrite map_map. induction IH as [|k l Hk _ IHl]; simpl; [reflexivity|].
    now rewrite Hk, IHl.
  - apply Forall_map, Forall_forall. now intros [s' kids'] _.
Qed.

(** ** The Layout wrapper *)

(** X6: whenever React counts one child and the children value is
    not itself an element (a text, a number, a boolean, a portal, an
    array around one child), [Layout] throws the error of
    [React.Children.only]. *)
Theorem Layout_throws_on_single_non_element (children : ReactNode)
    (config : option LayoutConfig) :
  Children_count children = 1%nat ->
  isValidElement children = false ->
  Layout children config =
    Throw "React.Children.only expected to receive a single React element child.".
Proof.
  intros Hc Hv. rewrite Layout_cases.
  destruct children; try discriminate Hv; now rewrite Hc.
Qed.

Lemma Layout_throws_on_single_non_element_witness :
  Children_count (RArray [RNull]) = 1%nat /\
  isValidElement (RArray [RNull]) = false /\
  Layout (RArray [RNull]) None =
    Throw "React.Children.only expected to receive a single React element child.".
Proof.
  split; [reflexivity|]. split; [reflexivity|].
  exact (Layout_throws_on_single_non_element (RArray [RNull]) None
           eq_refl eq_refl).
Defined.

Lemma Layout_outcomes children config :
  Layout children config = Ret ONull \/
  (exists msg, Layout children config = Throw msg) \/
  (exists node, children = RElem node /\ type node = NodeT /\
     Layout children config =
       Ret (OSuspense ONull
              (OLazyYogaViewer (styleNodeFromYogaNode node)
                 (match config with
                  | Some c => useWebDefaults c
                  | None => None
                  end)))).
Proof.
  rewrite Layout_cases.
  destruct children;
    try (destruct (Children_count _ =? 1)%nat; eauto; fail).
  destruct (decide (type e = NodeT)); [|eauto].
  right; right. exists e. destruct config; auto.
Qed.

(** X7: whenever [Layout] returns, it returns [null] or, only when the
    children value is itself a [Node] element, the boundary around one
    viewer whose root node is the flattened child and whose flag is
    [config?.useWebDefaults]; so a render never holds two viewers, and
    none with another root or flag. *)
Theorem Layout_returns_null_or_one_viewer (children : ReactNode)
    (config : option LayoutConfig) (out : Output) :
  Layout children config = Ret out ->
  (out = ONull /\ viewerCalls out = []) \/
  (exists node,
     children = RElem node /\ type node = NodeT /\
     out = OSuspense ONull
             (OLazyYogaViewer (styleNodeFromYogaNode node)
                (match config with
                 | Some c => useWebDefaults c
                 | None => None
                 end)) /\
     viewerCalls out =
       [(styleNodeFromYogaNode node,
         match config with
         | Some c => useWebDefaults c
         | None => None
         end)]).
Proof.
  intros H.
  destruct (Layout_outcomes children config)
    as [E | [[msg E] | (node & -> & Ht & E)]]; rewrite E in H.
  - injection H as <-. left. auto.
  - discriminate H.
  - injection H as <-. right. exists node. auto.
Qed.

Lemma Layout_returns_null_or_one_viewer_witness :
  Layout (RElem defaultRoot) (Some {| useWebDefaults := Some true |}) =
    Ret (OSuspense ONull
           (OLazyYogaViewer
              (mkStyleNode
                 [("width", SNum 350); ("height", SNum 350);
                  ("padding", SNum 20)]
                 [mkStyleNode [("flex", SNum 1)] []])
              (Some true))) /\
  viewerCalls
    (OSuspense ONull
       (OLazyYogaViewer
          (mkStyleNode
             [("width", SNum 350); ("height", SNum 350);
              ("padding", SNum 20)]
             [mkStyleNode [("flex", SNum 1)] []])
          (Some true))) =
    [(mkStyleNode
        [("width", SNum 350); ("height", SNum 350); ("padding", SNum 20)]
        [mkStyleNode [("flex", SNum 1)] []],
      Some true)].
Proof.
  split; [reflexivity|].
  destruct (Layout_returns_null_or_one_viewer (RElem defaultRoot)
              (Some {| useWebDefaults := Some true |}) _ eq_refl)
    as [[H _] | (node & Hn & _ & _ & Hcalls)].
  - discriminate H.
  - injection Hn as <-. exact Hcalls.
Defined.

(** ** The editor host *)

Lemma mount_settled p env : settled (mount p env).1.
Proof.
  unfold settled. destruct (mount_quiet p env) as (H & _).
  unfold mount in *.
  destruct (rerender_spec p env (initialHooks p)) as (-> & _). exact H.
Qed.

Lemma rerender_settled p env h : settled (rerender p env h).1.
Proof.
  unfold settled.
  destruct (rerender_spec p env h) as (Hp & _). rewrite Hp.
  apply rerender_depsInSync.
Qed.

Lemma step_settled inst ev env : settled inst -> settled (step inst ev env).1.
Proof.
  intros Hs. destruct ev as [p| |text]; simpl.
  - apply rerender_settled.
  - destruct (isLoaded (hooks inst)); [exact Hs | apply rerender_settled].
  - destruct (decide (text = liveCode (hooks inst)));
      [exact Hs | apply rerender_settled].
Qed.

Lemma run_settled trace :
  forall inst, settled inst -> settled (run inst trace).1.
Proof.
  induction trace as [|[ev env] rest IH]; intros inst Hs; [exact Hs|].
  rewrite run_cons. apply IH. now apply step_settled.
Qed.

Lemma session_settled p env0 trace : settled (session p env0 trace).1.
Proof.
  rewrite session_eq. apply run_settled, mount_settled.
Qed.

(** X8: typing never moves the selection: in every state the component
    can reach, whatever the props have been, a change of the editor text
    performs no focus action. *)
Theorem editor_change_never_focuses (p : Props) (env0 : Env)
    (trace : list (Event * Env)) (text : string) (env : Env) :
  (step (session p env0 trace).1 (EditorChange text) env).2 = [].
Proof.
  pose proof (session_settled p env0 trace) as Hs.
  destruct (step_quiet _ _ (EditorChange text) env Hs I) as (_ & _ & H).
  exact H.
Qed.

Lemma step_not_loaded_quiet inst ev env :
  isLoaded (hooks inst) = false ->
  match ev with PreviewMounted => False | _ => True end ->
  isLoaded (hooks (step inst ev env).1) = false /\
  (step inst ev env).2 = [].
Proof.
  intros Hl Hev. destruct ev as [p| |text]; simpl; [|contradiction|].
  - destruct (rerender_spec p env (hooks inst)) as (_ & -> & _ & _ & _ & _ & ->).
    split; [exact Hl|].
    destruct (decide _); [reflexivity | now apply focusEffect_not_loaded].
  - destruct (decide (text = liveCode (hooks inst))); [auto|].
    destruct (rerender_spec (props inst) env (setLiveCode text (hooks inst)))
      as (_ & -> & _ & _ & _ & _ & ->).
    split; [exact Hl|].
    destruct (decide _); [reflexivity | now apply focusEffect_not_loaded].
Qed.

Lemma run_not_loaded trace :
  forall inst,
    isLoaded (hooks inst) = false -> noPreviewMounted trace ->
    isLoaded (hooks (run inst trace).1) = false /\
    (run inst trace).2 = replicate (length trace) [].
Proof.
  induction trace as [|[ev env] rest IH]; intros inst Hl Hn; [auto|].
  inversion Hn as [|? ? Hev Hrest]; subst. simpl in Hev.
  rewrite run_cons. cbn [fst snd].
  destruct (step_not_loaded_quiet inst ev env Hl) as (Hl' & ->).
  { destruct ev; auto. }
  destruct (IH _ Hl' Hrest) as (H1 & ->). auto.
Qed.

(** X9: nothing is focused before the preview has mounted, whatever the
    parent does with the props meanwhile. *)
Theorem no_focus_before_preview (p : Props) (env0 : Env)
    (trace : list (Event * Env)) :
  noPreviewMounted trace ->
  (session p env0 trace).2 = replicate (S (length trace)) [].
Proof.
  intros Hn. rewrite session_eq. cbn [fst snd].
  destruct (mount_quiet p env0) as (_ & Hl & ->).
  destruct (run_not_loaded trace _ Hl Hn) as (_ & ->). reflexivity.
Qed.

Lemma no_focus_before_preview_witness :
  noPreviewMounted
    [(ParentRender (sampleProps (Some false)), sampleEnv 120);
     (ParentRender (sampleProps (Some true)), sampleEnv 120);
     (EditorChange "<Layout />", sampleEnv 120)] /\
  (session (sampleProps None) (sampleEnv 120)
     [(ParentRender (sampleProps (Some false)), sampleEnv 120);
      (ParentRender (sampleProps (Some true)), sampleEnv 120);
      (EditorChange "<Layout />", sampleEnv 120)]).2 = [[]; []; []; []].
Proof.
  assert (H : noPreviewMounted
    [(ParentRender (sampleProps (Some false)), sampleEnv 120);
     (ParentRender (sampleProps (Some true)), sampleEnv 120);
     (EditorChange "<Layout />", sampleEnv 120)]).
  { repeat constructor. }
  split; [exact H|].
  exact (no_focus_before_preview (sampleProps None) (sampleEnv 120) _ H).
Defined.

Lemma step_isLoaded inst ev env :
  isLoaded (hooks (step inst ev env).1) =
  match ev with
  | PreviewMounted => true
  | _ => isLoaded (hooks inst)
  end.
Proof.
  destruct ev as [p| |text]; simpl.
  - now destruct (rerender_spec p env (hooks inst)) as (_ & -> & _).
  - destruct (isLoaded (hooks inst)) eqn:E; [exact E|].
    now destruct (rerender_spec (props inst) env
                    (setIsLoaded true (hooks inst))) as (_ & -> & _).
  - destruct (decide (text = liveCode (hooks inst))); [reflexivity|].
    now destruct (rerender_spec (props inst) env
                    (setLiveCode text (hooks inst))) as (_ & -> & _).
Qed.

Lemma run_isLoaded_true trace :
  forall inst, isLoaded (hooks inst) = true ->
    isLoaded (hooks (run inst trace).1) = true.
Proof.
  induction trace as [|[ev env] rest IH]; intros inst Hl; [exact Hl|].
  rewrite run_cons. apply IH. rewrite step_isLoaded. now destruct ev.
Qed.

(** X10: [isLoaded] is a latch: it is false after a session exactly when
    the preview never mounted in it; once set, no event clears it. *)
Theorem isLoaded_latch (p : Props) (env0 : Env) (trace : list (Event * Env)) :
  (isLoaded (hooks (session p env0 trace).1) = false <->
   noPreviewMounted trace) /\
  (forall more,
     isLoaded (hooks (session p env0 trace).1) = true ->
     isLoaded (hooks (session p env0 (trace ++ more)).1) = true).
Proof.
  split.
  - rewrite session_eq. cbn [fst].
    destruct (mount_quiet p env0) as (_ & Hl & _). split.
    + intros H.
      destruct (trace_split trace) as [Hn | (pre & env & post & -> & Hn)];
        [exact Hn|].
      rewrite run_app, run_cons in H. cbn [fst] in H.
      rewrite run_isLoaded_true in H; [discriminate|].
      now rewrite step_isLoaded.
    + intros Hn. now destruct (run_not_loaded trace _ Hl Hn).
  - intros more H. rewrite session_eq in *. cbn [fst] in *.
    rewrite run_app. cbn [fst]. now apply run_isLoaded_true.
Qed.

(** X11: once the preview has loaded, a parent render runs the focus
    effect exactly when it changes the [autoFocus] prop: with the prop
    unchanged nothing happens, with a changed prop the effect makes its
    attempt for the new value. *)
Theorem parent_render_focus (p : Props) (env0 : Env)
    (trace : list (Event * Env)) (p' : Props) (env : Env) :
  isLoaded (hooks (session p env0 trace).1) = true ->
  (step (session p env0 trace).1 (ParentRender p') env).2 =
    if decide (autoFocus p' = autoFocus (props (session p env0 trace).1))
    then []
    else focusAttempt (autoFocus p') env.
Proof.
  intros Hl. destruct (session_settled p env0 trace) as [_ Hd].
  simpl.
  destruct (rerender_spec p' env (hooks (session p env0 trace).1))
    as (_ & _ & _ & _ & _ & _ & ->).
  rewrite Hd, Hl.
  destruct (decide (autoFocus p' = autoFocus (props (session p env0 trace).1)))
    as [E|E].
  - rewrite decide_True by congruence. reflexivity.
  - rewrite decide_False by congruence.
    now apply focusEffect_loaded.
Qed.

Lemma parent_render_focus_witness :
  isLoaded
    (hooks (session (sampleProps None) (sampleEnv 120)
              [(PreviewMounted, sampleEnv 120)]).1) = true /\
  (step (session (sampleProps None) (sampleEnv 120)
           [(PreviewMounted, sampleEnv 120)]).1
     (ParentRender (sampleProps (Some true))) (sampleEnv 120)).2 =
    focusAttempt (Some true) (sampleEnv 120).
Proof.
  split; [reflexivity|].
  exact (parent_render_focus (sampleProps None) (sampleEnv 120)
           [(PreviewMounted, sampleEnv 120)] (sampleProps (Some true))
           (sampleEnv 120) eq_refl).
Defined.

Lemma layoutEffect_fixed env h :
  scrollbarWidth h = scrollbarWidth (layoutEffect env h) ->
  layoutEffect env h = h.
Proof.
  unfold layoutEffect. destruct (editorScrollRef_current env); [|reflexivity].
  destruct h; simpl. intros <-. reflexivity.
Qed.

(** X12: the render loop settles: after a render and its commit, one
    more render of the same page changes no state, runs no focus effect
    and shows the same view, so the state update made by the layout
    effect cannot go on for ever. *)
Theorem renderAndCommit_settles (p : Props) (env : Env) (h : Hooks) :
  renderAndCommit p env (renderAndCommit p env h).1.1 =
  ((renderAndCommit p env h).1.1, [], (renderAndCommit p env h).2).
Proof.
  pose proof (renderAndCommit_spec p env h) as H.
  destruct (renderAndCommit p env h) as [[h' acts] v]. cbn [fst snd].
  destruct H as (Hl & Hc & Hd & Hs & _ & ->).
  assert (Hfix : layoutEffect env h' = h').
  { apply layoutEffect_fixed.
    destruct (layoutEffect_fields env h') as (_ & _ & _ & E').
    destruct (layoutEffect_fields env h) as (_ & _ & _ & E).
    destruct (editorScrollRef_current env); congruence. }
  unfold renderAndCommit, renderPass. rewrite Hfix, Hd, Hl.
  rewrite decide_True by reflexivity.
  rewrite decide_True by reflexivity. reflexivity.
Qed.

Lemma step_props inst ev env :
  props (step inst ev env).1 =
  match ev with
  | ParentRender p => p
  | _ => props inst
  end.
Proof.
  destruct ev as [p| |text]; simpl.
  - now destruct (rerender_spec p env (hooks inst)) as (-> & _).
  - destruct (isLoaded (hooks inst)); [reflexivity|].
    now destruct (rerender_spec (props inst) env
                    (setIsLoaded true (hooks inst))) as (-> & _).
  - destruct (decide (text = liveCode (hooks inst))); [reflexivity|].
    now destruct (rerender_spec (props inst) env
                    (setLiveCode text (hooks inst))) as (-> & _).
Qed.

Lemma run_props trace :
  forall inst, props (run inst trace).1 = lastProps (props inst) trace.
Proof.
  induction trace as [|[ev env] rest IH]; intros inst; [reflexivity|].
  rewrite run_cons. cbn [fst]. rewrite IH, step_props.
  unfold lastProps. simpl. destruct ev; reflexivity.
Qed.

(** X13: unlike [code], the [height] prop stays live: the wrapper shows
    the height of the last parent render, and shows none when that
    height is missing, zero or the empty string. *)
Theorem height_follows_props (p : Props) (env0 : Env)
    (trace : list (Event * Env)) :
  wrapper_height (view (session p env0 trace).1) =
    (if truthyHeight (height (lastProps p trace))
     then height (lastProps p trace) else None) /\
  (height (lastProps p trace) = Some (HNum 0) \/
   height (lastProps p trace) = Some (HStr "") \/
   height (lastProps p trace) = None ->
   wrapper_height (view (session p env0 trace).1) = None).
Proof.
  assert (H : wrapper_height (view (session p env0 trace).1) =
              if truthyHeight (height (lastProps p trace))
              then height (lastProps p trace) else None).
  { rewrite session_eq. cbn [fst].
    rewrite (run_viewInSync trace _ (mount_viewInSync p env0)).
    rewrite run_props. unfold render. cbn [wrapper_height].
    unfold mount.
    now destruct (rerender_spec p env0 (initialHooks p)) as (-> & _). }
  split; [exact H|].
  rewrite H. intros [-> | [-> | ->]]; reflexivity.
Qed.

(** X14: the focus effect and [getCode] look at the same element: when
    the effect selects the children of an element, that element has a
    height, the caret is collapsed next, and [getCode] on that page
    returns the element's text and does not throw. *)
Theorem focus_and_getCode_agree (p : Props) (env : Env) (h : Hooks)
    (codeElem : DomNode) (rest : list Action) :
  focusEffect p env h = SelectAllChildren codeElem :: rest ->
  rest = [CollapseToStart] /\
  dom_clientHeight codeElem <> 0 /\
  isLoaded h = true /\ autoFocus p = Some true /\
  getCode env = Ret (textContent codeElem).
Proof.
  unfold focusEffect. rewrite getCode_spec.
  destruct (isLoaded h); [|discriminate].
  destruct (autoFocus p) as [[|]|]; simpl; try discriminate.
  destruct (codeRegion env) as [el|]; [|discriminate].
  destruct (Z.eqb_spec (dom_clientHeight el) 0); simpl; [discriminate|].
  destruct (window_getSelection env); [|discriminate].
  intros [= <- <-]. auto.
Qed.

Lemma focus_and_getCode_agree_witness :
  focusEffect (sampleProps (Some true)) (sampleEnv 120)
    (setIsLoaded true (initialHooks (sampleProps (Some true)))) =
    SelectAllChildren
      (DElement ["prism-code"; "playgroundEditor"] 120
         [DElement ["token-line"] 20 [DText "<Layout>"];
          DElement ["token-line"] 20 [DText "</Layout>"]])
    :: [CollapseToStart] /\
  getCode (sampleEnv 120) = Ret "<Layout></Layout>".
Proof.
  split; [reflexivity|].
  exact (proj2 (proj2 (proj2 (proj2
           (focus_and_getCode_agree (sampleProps (Some true)) (sampleEnv 120)
              (setIsLoaded true (initialHooks (sampleProps (Some true))))
              _ _ eq_refl))))).
Defined.

(** ** The flattener over the store *)

(** X16: the flattened node does not copy the style: the object
    returned holds the very style value of the element (the same
    reference), next to a children array that is new. *)
Theorem flatten_shares_style (e : ReactElement) (h : list JS.Obj)
    (l : nat) (t : ElementType) (sv kv : JS.Val) (fuel : nat) :
  JS.reprElement h e (JS.VRef l) ->
  h !! l = Some (JS.OElement t sv kv) ->
  (JS.sizeElement e <= fuel)%nat ->
  exists r h',
    JS.styleNodeFromYogaNode fuel (JS.VRef l) h = JS.Done (JS.VRef r, h') /\
    h' !! r = Some (JS.OStyleNode sv (JS.VRef (length h))) /\
    h !! length h = None /\
    JS.reprStyle h' (props_style e) sv.
Proof.
  intros Hr Hl Hf.
  destruct (flatten_correct e fuel h _ Hf Hr) as (r & h' & E & Hp & _ & _).
  destruct (flattenCost_correct e fuel h _ r h' Hf Hr E) as (_ & _ & H3).
  exists r, h'. split; [exact E|].
  split; [now apply (H3 l t sv kv)|].
  split; [now apply lookup_ge_None_2|].
  destruct e as [t' s kids].
  destruct Hr as (l' & sv' & kv' & [= <-] & Hl' & Hs & _).
  rewrite Hl in Hl'. injection Hl' as <- <- <-.
  eapply reprStyle_prefix; eauto.
Qed.

Lemma flatten_shares_style_witness :
  JS.reprElement sampleStore defaultRoot (JS.VRef 3%nat) /\
  sampleStore !! 3%nat =
    Some (JS.OElement NodeT (JS.VRef 2%nat) (JS.VRef 1%nat)) /\
  (JS.sizeElement defaultRoot <= 4)%nat /\
  exists r h',
    JS.styleNodeFromYogaNode 4 (JS.VRef 3%nat) sampleStore =
      JS.Done (JS.VRef r, h') /\
    h' !! r = Some (JS.OStyleNode (JS.VRef 2%nat) (JS.VRef 4%nat)).
Proof.
  assert (Hr : JS.reprElement sampleStore defaultRoot (JS.VRef 3%nat)).
  { exists 3%nat, (JS.VRef 2%nat), (JS.VRef 1%nat).
    repeat split; [left; eexists; split; reflexivity|].
    exists 1%nat, (JS.VRef 0%nat), JS.VUndefined.
    repeat split. left; eexists; split; reflexivity. }
  assert (Hf : (JS.sizeElement defaultRoot <= 4)%nat) by (simpl; lia).
  split; [exact Hr|]. split; [reflexivity|]. split; [exact Hf|].
  destruct (flatten_shares_style defaultRoot sampleStore 3 NodeT
              (JS.VRef 2%nat) (JS.VRef 1%nat) 4 Hr eq_refl Hf)
    as (r & h' & E & Hlook & _).
  exists r, h'. split; [exact E | exact Hlook].
Defined.

(** X18: an object that is no React child (here a style object or a
    flattened node) among the items of the children array makes the
    flattener throw React's error, even when the items before it are
    valid children. *)
Theorem flatten_object_child_throws (h : list JS.Obj) (l a o : nat)
    (t : ElementType) (sv : JS.Val) (obj : JS.Obj)
    (items : list ReactNode) (vs rest : list JS.Val) (fuel : nat) :
  h !! l = Some (JS.OElement t sv (JS.VRef a)) ->
  h !! a = Some (JS.OArray (vs ++ JS.VRef o :: rest)) ->
  Forall2 (JS.repr h) items vs ->
  h !! o = Some obj -> plainObject obj ->
  (list_sum (map (fun c => S (JS.size c)) items) + 3 <= fuel)%nat ->
  JS.styleNodeFromYogaNode fuel (JS.VRef l) h =
    JS.Thrown "Objects are not valid as a React child".
Proof.
  intros Hl Ha Hall Ho Hp Hf.
  eapply object_child_throws; eauto.
Qed.

Lemma flatten_object_child_throws_witness :
  brokenStore !! 2%nat =
    Some (JS.OElement NodeT (JS.VRef 0%nat) (JS.VRef 3%nat)) /\
  JS.styleNodeFromYogaNode 7 (JS.VRef 2%nat) brokenStore =
    JS.Thrown "Objects are not valid as a React child".
Proof.
  split; [reflexivity|].
  apply (flatten_object_child_throws brokenStore 2 3 0 NodeT (JS.VRef 0%nat)
           (JS.OStyle [("flex", SNum 1)])
           [RElem defaultInner] [JS.VRef 1%nat] [] 7).
  - reflexivity.
  - reflexivity.
  - constructor; [|constructor].
    exists 1%nat, (JS.VRef 0%nat), JS.VUndefined.
    repeat split. left; eexists; split; reflexivity.
  - reflexivity.
  - exact I.
  - simpl. lia.
Defined.
